(** * formio [src/util/util.js]: submission rendering and field redaction

    A shallow embedding of the helpers of [src/util/util.js]: the rendering
    of a submission ([renderComponentValue], [renderFormSubmission]), its
    redaction ([removeProtectedFields]), the key conversions
    ([getSubmissionKey], [getFormComponentKey]) and the request helpers
    ([getHeader], [getQuery], [getParameter], [getRequestValue],
    [createSubRequest], [getUrlParams], [getAlias]), together with the
    properties of the specification settled on it.

    Modelling conventions.
    - A JavaScript value is a [JsVal]: [undefined], [null], booleans,
      numbers, strings, arrays and plain objects, as [JSON.parse] gives
      them.  Numbers are the safe integers and are carried by [Z]; a string
      is the sequence of its code units, those below 256.  An object is the
      list of its own properties in enumeration order, and no own property
      is callable.
    - The prototypes are not values of the model.  What they decide is
      written out where the code depends on it: the conversion to a string
      throws on an object with a [toString] of its own, [hasOwnProperty]
      is shadowed by a path of that name, an assignment to [__proto__]
      stores nothing.  A read of a member that a prototype provides
      ([constructor], [push], ...) gives a function of the host, which the
      model cannot give: the properties that depend on what a read returns
      are stated for the reads that [own_read] accepts, which stay on own
      properties.
    - Property names are strings; an array index [i] is the property named
      by the decimal numeral of [i], as in JavaScript.
    - A component definition is a record of the fields that the code reads;
      the flattened schema is a finite map from paths to components.
    - [_.get], [_.set], [_.each] and [_.map] follow lodash 3 (the code also
      uses its [_.rest] and [_.clone(value, true)]); paths are dotted, the
      bracket syntax of lodash paths is not modelled ([dotted] says that a
      key has none).
    - In-place mutation is written as explicit state passing: a function
      that mutates the flattened schema returns the schema it leaves behind,
      a redaction rule maps a submission to the submission it leaves behind.
    - The recursion of [renderComponentValue] is driven by the submission
      data and is not structural, so the embedding takes a recursion budget
      and reports [OutOfFuel] when it is exhausted; a [TypeError] raised by
      the code is the outcome [Throw].  A function that can throw returns
      an [Outcome]. *)

From Stdlib Require Import ZArith Ascii String.
From Stdlib Require Import Numbers.DecimalString Numbers.DecimalNat.
From stdpp Require Import base option list strings gmap.

Local Open Scope string_scope.
Local Open Scope list_scope.
Local Open Scope nat_scope.
#[local] Set Warnings "-register-all".

(** ** Strings *)

(** [pat] occurs at the start of [s]. *)
Fixpoint starts_with (pat s : string) : bool :=
  match pat with
  | EmptyString => true
  | String a pat' =>
      match s with
      | EmptyString => false
      | String b s' => Ascii.eqb a b && starts_with pat' s'
      end
  end.

(** [s.replace(/pat/g, rep)] for a literal, non-empty pattern: the matches
    are found from left to right and do not overlap.  [skip] counts the
    characters of the current match that are still to be consumed. *)
Fixpoint replace_from (pat rep : string) (skip : nat) (s : string) : string :=
  match s with
  | EmptyString => EmptyString
  | String c s' =>
      match skip with
      | S k => replace_from pat rep k s'
      | O =>
          if starts_with pat s
          then rep +:+ replace_from pat rep (String.length pat - 1) s'
          else String c (replace_from pat rep 0 s')
      end
  end.

Definition replace_all (pat rep s : string) : string :=
  replace_from pat rep 0 s.

(** [getSubmissionKey]: [key.replace(/\./g, '.data.')]. *)
Definition getSubmissionKey (key : string) : string :=
  replace_all "." ".data." key.

(** [getFormComponentKey]: [key.replace(/\.data\./g, '.')]. *)
Definition getFormComponentKey (key : string) : string :=
  replace_all ".data." "." key.

(** [String.prototype.toUpperCase] on the ASCII letters. *)
Definition upper_ascii (c : Ascii.ascii) : Ascii.ascii :=
  let n := Ascii.nat_of_ascii c in
  if (97 <=? n)%nat && (n <=? 122)%nat then Ascii.ascii_of_nat (n - 32) else c.

Fixpoint toUpperCase (s : string) : string :=
  match s with
  | EmptyString => EmptyString
  | String c s' => String (upper_ascii c) (toUpperCase s')
  end.

(** Decimal numeral of an integer, [Number.prototype.toString]. *)
Definition Z_to_string (n : Z) : string :=
  NilEmpty.string_of_int (Z.to_int n).

Definition nat_to_string (n : nat) : string :=
  NilEmpty.string_of_uint (Nat.to_uint n).

(** The array index named by a property name, if it names one: the name
    must be the canonical numeral ("0", "1", ... without leading zeros). *)
Definition index_of_key (k : string) : option nat :=
  match NilEmpty.uint_of_string k with
  | Some u =>
      let n := Nat.of_uint u in
      if String.eqb (nat_to_string n) k then Some n else None
  | None => None
  end.

(** The characters of a string, each as a one-character string. *)
Fixpoint chars (s : string) : list string :=
  match s with
  | EmptyString => []
  | String c s' => String c EmptyString :: chars s'
  end.

(** Segments of a dotted path; empty segments are dropped, as lodash's
    [toPath] does (it collects the maximal runs of non-separator
    characters).  Form keys are identifiers joined by dots, so the bracket
    syntax of lodash paths is not modelled. *)
Fixpoint split_dots (cur : string) (s : string) : list string :=
  match s with
  | EmptyString => if String.eqb cur "" then [] else [cur]
  | String c s' =>
      if Ascii.eqb c "."%char
      then (if String.eqb cur "" then [] else [cur]) ++ split_dots "" s'
      else split_dots (cur +:+ String c EmptyString) s'
  end.

Definition toPath (path : string) : list string := split_dots "" path.

Fixpoint has_dot (s : string) : bool :=
  match s with
  | EmptyString => false
  | String c s' => Ascii.eqb c "."%char || has_dot s'
  end.

Fixpoint has_char (c : Ascii.ascii) (s : string) : bool :=
  match s with
  | EmptyString => false
  | String c' s' => Ascii.eqb c' c || has_char c s'
  end.

(** A key in the dotted syntax: it has none of the brackets of the lodash
    path syntax. *)
Definition dotted (key : string) : bool :=
  negb (has_char "["%char key) && negb (has_char "]"%char key).

(** ** Outcomes *)

Inductive Outcome (A : Type) : Type :=
  | Ret (a : A)
  | Throw
  | OutOfFuel.
Arguments Ret {A} a.
Arguments Throw {A}.
Arguments OutOfFuel {A}.

#[global] Instance Outcome_ret : MRet Outcome := fun A a => Ret a.
#[global] Instance Outcome_bind : MBind Outcome := fun A B f m =>
  match m with
  | Ret a => f a
  | Throw => Throw
  | OutOfFuel => OutOfFuel
  end.

(** A loop whose body may fail, threading the loop state. *)
Fixpoint foldM {A St : Type} (f : St → A → Outcome St) (st : St) (l : list A)
  : Outcome St :=
  match l with
  | [] => Ret st
  | x :: l' => st' ← f st x; foldM f st' l'
  end.

(** The call neither runs out of budget: it returns or throws. *)
Definition terminates {A : Type} (o : Outcome A) : Prop := o ≠ OutOfFuel.

(** The call returns a value. *)
Definition returns {A : Type} (o : Outcome A) : Prop := ∃ a, o = Ret a.

(** [f] on every element, from the left, as long as no call fails. *)
Fixpoint mapM {A B : Type} (f : A → Outcome B) (l : list A) : Outcome (list B) :=
  match l with
  | [] => Ret []
  | x :: l' => y ← f x; ys ← mapM f l'; mret (y :: ys)
  end.

(** ** JavaScript values *)

Inductive JsVal : Type :=
  | VUndef
  | VNull
  | VBool (b : bool)
  | VNum (n : Z)
  | VStr (s : string)
  | VArr (xs : list JsVal)
  | VObj (props : list (string * JsVal)).

(** [!!v] is [false] exactly on the falsy values. *)
Definition truthy (v : JsVal) : bool :=
  match v with
  | VUndef | VNull => false
  | VBool b => b
  | VNum n => negb (n =? 0)%Z
  | VStr s => negb (String.eqb s "")
  | VArr _ | VObj _ => true
  end.

(** [v == null]. *)
Definition is_nullish (v : JsVal) : bool :=
  match v with
  | VUndef | VNull => true
  | _ => false
  end.

(** lodash [isObject]: arrays and objects. *)
Definition isObject (v : JsVal) : bool :=
  match v with
  | VArr _ | VObj _ => true
  | _ => false
  end.

(** *** Own properties *)

Fixpoint assoc_get (k : string) (props : list (string * JsVal)) : option JsVal :=
  match props with
  | [] => None
  | (k', v) :: rest => if String.eqb k' k then Some v else assoc_get k rest
  end.

(** [obj[k] = v] on the own properties: an existing property keeps its
    place, a new one is appended. *)
Fixpoint assoc_set (k : string) (v : JsVal) (props : list (string * JsVal))
  : list (string * JsVal) :=
  match props with
  | [] => [(k, v)]
  | (k', v') :: rest =>
      if String.eqb k' k then (k', v) :: rest else (k', v') :: assoc_set k v rest
  end.

(** [delete obj[k]]. *)
Definition assoc_delete (k : string) (props : list (string * JsVal))
  : list (string * JsVal) :=
  List.filter (fun kv => negb (String.eqb (fst kv) k)) props.

(** *** Conversion to a string *)

(** The string that the built-in [toString] methods give: the numeral of a
    number, the elements of an array joined by [","], ["[object Object]"]
    for an object. *)
Fixpoint string_of (v : JsVal) : string :=
  match v with
  | VUndef => "undefined"
  | VNull => "null"
  | VBool true => "true"
  | VBool false => "false"
  | VNum n => Z_to_string n
  | VStr s => s
  | VArr xs =>
      String.concat ","
        (List.map (fun x => match x with
                            | VUndef | VNull => ""
                            | _ => string_of x
                            end) xs)
  | VObj _ => "[object Object]"
  end.

(** The conversion reaches the built-in [toString]: no object on the way,
    the value itself or an element of an array joined for it, has a
    property [toString] of its own.  Such a property hides the built-in
    method and is not callable. *)
Fixpoint converts (v : JsVal) : bool :=
  match v with
  | VArr xs => forallb converts xs
  | VObj props => negb (bool_decide (is_Some (assoc_get "toString" props)))
  | _ => true
  end.

(** [ToString(v)], as [v.toString()] and as the operand of a string
    concatenation: a [TypeError] when the built-in [toString] is hidden
    (the built-in [valueOf] returns the object itself, so the conversion
    has no other way). *)
Definition ToString (v : JsVal) : Outcome string :=
  if converts v then Ret (string_of v) else Throw.

(** [Array.prototype.join]: [undefined] and [null] elements give the empty
    string, the others are converted. *)
Definition join_element (x : JsVal) : Outcome string :=
  match x with
  | VUndef | VNull => Ret ""
  | _ => ToString x
  end.

Definition array_join (sep : string) (xs : list JsVal) : Outcome string :=
  parts ← mapM join_element xs; mret (String.concat sep parts).

(** [a === b] between a schema value and a submission value.  Two arrays or
    objects are equal only when they are the same object, which a value of
    the schema and a value of the submission never are. *)
Definition strict_eq (a b : JsVal) : bool :=
  match a, b with
  | VUndef, VUndef => true
  | VNull, VNull => true
  | VBool x, VBool y => Bool.eqb x y
  | VNum x, VNum y => (x =? y)%Z
  | VStr x, VStr y => String.eqb x y
  | _, _ => false
  end.

(** *** Properties *)

(** [k in Object(v)]. *)
Definition js_in (k : string) (v : JsVal) : bool :=
  match v with
  | VObj props => bool_decide (is_Some (assoc_get k props))
  | VArr xs =>
      String.eqb k "length" ||
      match index_of_key k with
      | Some i => bool_decide (i < length xs)
      | None => false
      end
  | VStr s =>
      String.eqb k "length" ||
      match index_of_key k with
      | Some i => bool_decide (i < String.length s)
      | None => false
      end
  | _ => false
  end.

(** [v[k]] for a [v] that is neither [undefined] nor [null]. *)
Definition js_prop (v : JsVal) (k : string) : JsVal :=
  match v with
  | VObj props => default VUndef (assoc_get k props)
  | VArr xs =>
      if String.eqb k "length" then VNum (Z.of_nat (length xs))
      else match index_of_key k with
           | Some i => default VUndef (xs !! i)
           | None => VUndef
           end
  | VStr s =>
      if String.eqb k "length" then VNum (Z.of_nat (String.length s))
      else match index_of_key k with
           | Some i => default VUndef (VStr <$> chars s !! i)
           | None => VUndef
           end
  | _ => VUndef
  end.

(** [obj[k] = v] on the own properties of a plain object.  An assignment
    to [__proto__], unless the object has a property of that name of its
    own, goes to the setter that [Object.prototype] provides: it stores no
    property. *)
Definition obj_put (k : string) (v : JsVal) (props : list (string * JsVal))
  : list (string * JsVal) :=
  if String.eqb k "__proto__" && negb (bool_decide (is_Some (assoc_get k props)))
  then props
  else assoc_set k v props.

(** [obj[k] = v] for an array or an object.  Writing past the end of an
    array extends it, the skipped positions read [undefined].  A property of
    an array that is not an index is not represented: the array is left as
    it is. *)
Definition js_put (obj : JsVal) (k : string) (v : JsVal) : JsVal :=
  match obj with
  | VObj props => VObj (obj_put k v props)
  | VArr xs =>
      match index_of_key k with
      | Some i =>
          if bool_decide (i < length xs) then VArr (<[i:=v]> xs)
          else VArr (xs ++ replicate (i - length xs) VUndef ++ [v])
      | None => VArr xs
      end
  | _ => obj
  end.

(** ** lodash 3: [_.get], [_.set] and the iteration of [_.each] / [_.map] *)

(** The loop of [baseGet]: [object = object[path[index++]]] as long as
    [object != null]; the result is [undefined] when the loop stops early. *)
Fixpoint get_walk (path : list string) (object : JsVal) : JsVal :=
  match path with
  | [] => object
  | k :: rest =>
      if is_nullish object then VUndef else get_walk rest (js_prop object k)
  end.

(** The path that [_.get] follows: the whole string when it names a property
    of the object, its segments otherwise. *)
Definition get_path (object : JsVal) (path : string) : list string :=
  if js_in path object then [path] else toPath path.

(** [_.get(object, path)]. *)
Definition _get (object : JsVal) (path : string) : JsVal :=
  if is_nullish object then VUndef
  else
    match get_path object path with
    | [] => VUndef
    | segs => get_walk segs object
    end.

(** lodash [isKey] on a string: a string without a dot is a property name,
    one with a dot only when the object has that property. *)
Definition isKey (path : string) (object : JsVal) : bool :=
  negb (has_dot path) || js_in path object.

Definition MAX_SAFE_INTEGER : Z := 9007199254740991.

(** lodash [isIndex] on a string: [/^\d+$/], below [MAX_SAFE_INTEGER]. *)
Definition isIndex (k : string) : bool :=
  match NilEmpty.uint_of_string k with
  | Some u =>
      negb (String.eqb k "") && (Z.of_N (N.of_uint u) <? MAX_SAFE_INTEGER)%Z
  | None => false
  end.

(** The path that [_.set] follows. *)
Definition set_path (object : JsVal) (path : string) : list string :=
  if negb (is_nullish (js_prop object path)) || isKey path object
  then [path] else toPath path.

(** The loop of [_.set].  On the way down a missing ([null] or [undefined])
    property of an object is created, as an array when the next segment is
    an index and as an object otherwise; the last segment is assigned.
    Nothing is written into a value that is not an object. *)
Fixpoint set_walk (path : list string) (value : JsVal) (nested : JsVal) : JsVal :=
  match path with
  | [] => nested
  | [key] => if isObject nested then js_put nested key value else nested
  | key :: (next :: _) as rest =>
      if isObject nested then
        let child := js_prop nested key in
        if is_nullish child then
          js_put nested key
            (set_walk rest value (if isIndex next then VArr [] else VObj []))
        else if isObject child then js_put nested key (set_walk rest value child)
        else nested
      else nested
  end.

(** [_.set(object, path, value)]; the result is the object as the call
    leaves it. *)
Definition _set (object : JsVal) (path : string) (value : JsVal) : JsVal :=
  if is_nullish object then object
  else set_walk (set_path object path) value object.

(** lodash [isLength]: a non-negative integer up to [MAX_SAFE_INTEGER]. *)
Definition isLength (v : JsVal) : option nat :=
  match v with
  | VNum n =>
      if (0 <=? n)%Z && (n <=? MAX_SAFE_INTEGER)%Z then Some (Z.to_nat n) else None
  | _ => None
  end.

(** The (key, value) pairs that [_.each] and [_.map] hand to their callback,
    in order.  Arrays and strings are visited by index; so is an object with
    a valid [length]; any other object by its own properties; a number or a
    boolean has nothing to visit, nor has a falsy collection. *)
Definition each_entries (collection : JsVal) : list (string * JsVal) :=
  match collection with
  | VArr xs => imap (fun i x => (nat_to_string i, x)) xs
  | VStr s => imap (fun i c => (nat_to_string i, VStr c)) (chars s)
  | VObj props =>
      match isLength (default VUndef (assoc_get "length" props)) with
      | Some n =>
          List.map
            (fun i => (nat_to_string i,
                       default VUndef (assoc_get (nat_to_string i) props)))
            (seq 0 n)
      | None => props
      end
  | _ => []
  end.

(** ** The host: what the JavaScript runtime and [moment] provide *)

(** [StringToNumber s] is the number a string converts to ([None] for
    [NaN]); [moment_format v f] is [moment(v).format(f)]. *)
Record Host : Type := {
  StringToNumber : string → option Z;
  moment_format : JsVal → string → string
}.

(** [ToNumber]; [None] is [NaN].  An array or an object is converted
    through its string form, which it may not have. *)
Definition ToNumber (host : Host) (v : JsVal) : Outcome (option Z) :=
  match v with
  | VUndef => Ret None
  | VNull => Ret (Some 0%Z)
  | VBool b => Ret (Some (if b then 1 else 0)%Z)
  | VNum n => Ret (Some n)
  | VStr s => Ret (StringToNumber host s)
  | VArr _ | VObj _ => s ← ToString v; mret (StringToNumber host s)
  end.

(** [v < n] and [v > n] against a number literal. *)
Definition js_lt (host : Host) (v : JsVal) (n : Z) : Outcome bool :=
  x ← ToNumber host v;
  mret (match x with
        | Some x => (x <? n)%Z
        | None => false
        end).

Definition js_gt (host : Host) (v : JsVal) (n : Z) : Outcome bool :=
  x ← ToNumber host v;
  mret (match x with
        | Some x => (n <? x)%Z
        | None => false
        end).

(** ** Components and the flattened schema *)

(** An entry of an option list, [{value, label}]. *)
Record OptionEntry : Type := {
  o_value : JsVal;
  o_label : JsVal
}.

(** A component definition.  [c_label] and [c_placeholder] are the empty
    string when the component has none (the code only tests them with
    [||]); [c_values] is [Some] when the component has a [values] property
    of its own, [c_data_values] when it has [data.values]; [c_format] is
    [None] when [format] is not a string. *)
Record Component : Type := {
  c_key : string;
  c_type : string;
  c_label : string;
  c_placeholder : string;
  c_multiple : bool;
  c_protected : bool;
  c_values : option (list OptionEntry);
  c_data_values : option (list OptionEntry);
  c_enableDate : bool;
  c_enableTime : bool;
  c_format : option string
}.

(** [component.multiple = b]. *)
Definition set_multiple (b : bool) (c : Component) : Component :=
  {| c_key := c_key c; c_type := c_type c; c_label := c_label c;
     c_placeholder := c_placeholder c; c_multiple := b;
     c_protected := c_protected c; c_values := c_values c;
     c_data_values := c_data_values c; c_enableDate := c_enableDate c;
     c_enableTime := c_enableTime c; c_format := c_format c |}.

(** The flattened schema: component path to component definition. *)
Abbreviation Schema := (gmap string Component).

(** [{label, value}]. *)
Record RenderedField : Type := {
  rf_label : string;
  rf_value : JsVal
}.

(** [a || b] on strings. *)
Definition str_or (a b : string) : string :=
  if String.eqb a "" then b else a.

(** [components.hasOwnProperty(key) ? components[key] : absent].  The
    method is the one that [Object.prototype] provides, unless the schema
    has a path ["hasOwnProperty"]: the property then holds a component,
    which is not callable, and the call throws. *)
Definition lookup_own (components : Schema) (key : string)
  : Outcome (option Component) :=
  match components !! "hasOwnProperty" with
  | Some _ => Throw
  | None => Ret (components !! key)
  end.

(** ** [renderComponentValue] *)

(** The double quote character, as a string. *)
Definition dq : string := String (Ascii.ascii_of_nat 34) EmptyString.

(** ['<table border="1" style="width:100%">'] *)
Definition TABLE_OPEN : string :=
  "<table border=" +:+ dq +:+ "1" +:+ dq +:+ " style=" +:+ dq +:+ "width:100%"
  +:+ dq +:+ ">".

(** ['<th style="text-align:right;padding: 5px 10px;">'] *)
Definition TH_CONTAINER : string :=
  "<th style=" +:+ dq +:+ "text-align:right;padding: 5px 10px;" +:+ dq +:+ ">".

(** ['<td style="width:100%;padding:5px 10px;">'] *)
Definition TD_CONTAINER : string :=
  "<td style=" +:+ dq +:+ "width:100%;padding:5px 10px;" +:+ dq +:+ ">".

(** ['<th style="padding: 5px 10px;">'] *)
Definition TH_GRID : string :=
  "<th style=" +:+ dq +:+ "padding: 5px 10px;" +:+ dq +:+ ">".

(** ['<td style="padding:5px 10px;">'] *)
Definition TD_GRID : string :=
  "<td style=" +:+ dq +:+ "padding:5px 10px;" +:+ dq +:+ ">".

Definition PASSWORD_MASK : string := "--- PASSWORD ---".
Definition PROTECTED_MASK : string := "--- PROTECTED ---".

(** The cases of [switch (component.type)]. *)
Inductive Kind : Type :=
  | KPassword
  | KAddress
  | KSignature
  | KContainer
  | KDatagrid
  | KDatetime
  | KOptions
  | KOther.

Definition kind_of (type : string) : Kind :=
  if String.eqb type "password" then KPassword
  else if String.eqb type "address" then KAddress
  else if String.eqb type "signature" then KSignature
  else if String.eqb type "container" then KContainer
  else if String.eqb type "datagrid" then KDatagrid
  else if String.eqb type "datetime" then KDatetime
  else if String.eqb type "radio" then KOptions
  else if String.eqb type "select" then KOptions
  else if String.eqb type "selectboxes" then KOptions
  else KOther.

(** The option list of a component: its own [values], else [data.values],
    else the empty list. *)
Definition option_list (component : Component) : list OptionEntry :=
  match c_values component with
  | Some values => values
  | None =>
      match c_data_values component with
      | Some values => values
      | None => []
      end
  end.

(** The [for (var i in values)] loop: the label of the first entry whose
    value is [===] to [value], else the current value. *)
Definition lookup_option (values : list OptionEntry) (value cur : JsVal) : JsVal :=
  match List.find (fun o => strict_eq (o_value o) value) values with
  | Some o => o_label o
  | None => cur
  end.

(** [component.label || component.placeholder || component.key]. *)
Definition component_label (component : Component) : string :=
  str_or (str_or (c_label component) (c_placeholder component)) (c_key component).

(** The last statement: [compValue.value ? compValue.value.toString() : '']. *)
Definition coerce (v : JsVal) : Outcome JsVal :=
  if truthy v then s ← ToString v; mret (VStr s) else mret (VStr "").

(** The value after [if (!value) value = '']. *)
Definition or_empty (v : JsVal) : JsVal :=
  if truthy v then v else VStr "".

Section Render.

Variable host : Host.

(** The recursive calls [this.renderComponentValue(...)]. *)
Variable self : JsVal → string → Schema → Outcome (RenderedField * Schema).

(** One call of the callback of [_.map] in the [multiple] branch: the
    element is rendered under [key] in a fresh object,
    [subValues = {}; subValues[key] = subValue]. *)
Definition render_element (key : string)
    (st : list JsVal * Schema) (subValue : JsVal)
  : Outcome (list JsVal * Schema) :=
  '(sub, components) ← self (VObj (obj_put key subValue [])) key st.2;
  mret ((st.1 ++ [rf_value sub])%list, components).

(** [_.map(value, ...).join(', ')]. *)
Definition render_multiple (key : string) (value : JsVal) (components : Schema)
  : Outcome (JsVal * Schema) :=
  '(rendered, components') ←
    foldM (render_element key) ([], components) (snd <$> each_entries value);
  joined ← array_join ", " rendered;
  mret (VStr joined, components').

(** One call of the callback of [_.each] in the [container] case. *)
Definition container_row (value : JsVal)
    (st : string * Schema) (entry : string * JsVal)
  : Outcome (string * Schema) :=
  '(subCompValue, components) ← self value entry.1 st.2;
  subValue ← ToString (rf_value subCompValue);
  mret (st.1 +:+ "<tr>"
             +:+ TH_CONTAINER +:+ rf_label subCompValue +:+ "</th>"
             +:+ TD_CONTAINER +:+ subValue +:+ "</td>"
             +:+ "</tr>",
        components).

Definition render_container (value : JsVal) (components : Schema)
  : Outcome (JsVal * Schema) :=
  '(html, components') ←
    foldM (container_row value) (TABLE_OPEN, components) (each_entries value);
  mret (VStr (html +:+ "</table>"), components').

(** One call of the callback of [_.each(value[0], ...)]. *)
Definition grid_column (components : Schema)
    (columns : list Component) (entry : string * JsVal)
  : Outcome (list Component) :=
  column ← lookup_own components entry.1;
  mret (match column with
        | Some column => columns ++ [column]
        | None => columns
        end).

(** The columns of a datagrid: the components named by the keys of the
    first row that the schema has. *)
Definition grid_columns (value : JsVal) (components : Schema)
  : Outcome (list Component) :=
  js_gt host (js_prop value "length") 0 ≫= λ nonempty : bool,
  if nonempty
  then foldM (grid_column components) [] (each_entries (js_prop value "0"))
  else Ret [].

Definition grid_header (columns : list Component) : string :=
  foldl (fun html column =>
           html +:+ TH_GRID +:+ str_or (c_label column) (c_key column) +:+ "</th>")
        "" columns.

Definition grid_cell (subValue : JsVal)
    (st : string * Schema) (column : Component)
  : Outcome (string * Schema) :=
  '(cell, components) ← self subValue (c_key column) st.2;
  cellValue ← ToString (rf_value cell);
  mret (st.1 +:+ TD_GRID +:+ cellValue +:+ "</td>", components).

Definition grid_row (columns : list Component)
    (st : string * Schema) (subValue : JsVal)
  : Outcome (string * Schema) :=
  '(html, components) ← foldM (grid_cell subValue) (st.1 +:+ "<tr>", st.2) columns;
  mret (html +:+ "</tr>", components).

Definition render_datagrid (value : JsVal) (components : Schema)
  : Outcome (JsVal * Schema) :=
  columns ← grid_columns value components;
  let html := TABLE_OPEN +:+ "<tr>" +:+ grid_header columns +:+ "</tr>" in
  '(html, components') ←
    foldM (grid_row columns) (html, components) (snd <$> each_entries value);
  mret (VStr (html +:+ "</table>"), components').

(** The [datetime] case; [component.format.toUpperCase()] throws when
    [format] is missing. *)
Definition render_datetime (component : Component) (value : JsVal)
  : Outcome JsVal :=
  dateFormat ←
    (if c_enableDate component
     then match c_format component with
          | Some format => Ret (toUpperCase format)
          | None => Throw
          end
     else Ret "");
  let dateFormat :=
    if c_enableTime component then dateFormat +:+ " hh:mm:ss A" else dateFormat in
  mret (if String.eqb dateFormat "" then value
        else VStr (moment_format host value dateFormat)).

(** [switch (component.type)]: the value computed for a single value. *)
Definition dispatch (component : Component) (value : JsVal) (components : Schema)
  : Outcome (JsVal * Schema) :=
  match kind_of (c_type component) with
  | KPassword => Ret (VStr PASSWORD_MASK, components)
  | KAddress =>
      Ret (if truthy value then js_prop value "formatted_address" else VStr "",
           components)
  | KSignature =>
      src ← ToString value;
      mret (VStr ("<img src=" +:+ dq +:+ src +:+ dq +:+ " />"), components)
  | KContainer => render_container value components
  | KDatagrid => render_datagrid value components
  | KDatetime => v ← render_datetime component value; mret (v, components)
  | KOptions => Ret (lookup_option (option_list component) value value, components)
  | KOther => Ret (value, components)
  end.

(** What follows the [multiple] branch: type dispatch, the [protected]
    override and the coercion to a string. *)
Definition render_single (component : Component) (value : JsVal)
    (components : Schema)
  : Outcome (RenderedField * Schema) :=
  '(v, components') ← dispatch component value components;
  let v := if c_protected component then VStr PROTECTED_MASK else v in
  v ← coerce v;
  mret ({| rf_label := component_label component; rf_value := v |},
        components').

(** The body of [renderComponentValue]. *)
Definition render_body (data : JsVal) (key : string) (components : Schema)
  : Outcome (RenderedField * Schema) :=
  let value := or_empty (_get data key) in
  known ← lookup_own components key;
  match known with
  | None => Ret ({| rf_label := key; rf_value := value |}, components)
  | Some component =>
      if c_multiple component then
        let components := <[key := set_multiple false component]> components in
        '(v, components') ← render_multiple key value components;
        mret ({| rf_label := component_label component; rf_value := v |},
              components')
      else render_single component value components
  end.

End Render.

(** [renderComponentValue(data, key, components)] with a recursion budget.
    The result carries the schema as the call leaves it. *)
Fixpoint renderComponentValue (host : Host) (fuel : nat)
    (data : JsVal) (key : string) (components : Schema)
  : Outcome (RenderedField * Schema) :=
  match fuel with
  | O => OutOfFuel
  | S fuel' => render_body host (renderComponentValue host fuel') data key components
  end.

(** ** [removeProtectedFields] *)

(** The field that a path of own properties leads to, through objects
    only; [None] when a segment is missing on the way. *)
Fixpoint own_field (path : list string) (obj : JsVal) : option JsVal :=
  match path with
  | [] => Some obj
  | k :: rest =>
      match obj with
      | VObj props => assoc_get k props ≫= own_field rest
      | _ => None
      end
  end.

(** Modelled from the spec: [deleteProp] is the export of the package
    [delete-property], which is not among the sources.  [deleteProp(path)]
    is the delete rule of the spec: it navigates the dotted path into the
    nested structure of the submission and removes the field there; where
    the path leads to no field, nothing is changed. *)
Fixpoint delete_walk (path : list string) (obj : JsVal) : JsVal :=
  match path with
  | [] => obj
  | [k] =>
      match obj with
      | VObj props => VObj (assoc_delete k props)
      | _ => obj
      end
  | k :: rest =>
      match obj with
      | VObj props =>
          match assoc_get k props with
          | Some child => VObj (assoc_set k (delete_walk rest child) props)
          | None => obj
          end
      | _ => obj
      end
  end.

(** [deleteProp(path)(obj)]; the result is the object as the call leaves
    it. *)
Definition deleteProp (path : string) (obj : JsVal) : JsVal :=
  delete_walk (toPath path) obj.

(** The entries of [modifyFields]: [deleteProp(path)], or the closure over
    [fieldPath] that masks a signature. *)
Inductive Rule : Type :=
  | DeleteRule (path : string)
  | MaskRule (fieldPath : string).

(** [(!data || (data.length < 25)) ? '' : 'YES']; the comparison converts
    [data.length] to a number. *)
Definition mask_value (host : Host) (data : JsVal) : Outcome JsVal :=
  if negb (truthy data) then mret (VStr "")
  else
    js_lt host (js_prop data "length") 25 ≫= λ short : bool,
    mret (if short then VStr "" else VStr "YES").

(** The call [modifyField(submission)]: the submission as the call leaves
    it when it returns. *)
Definition callRule (host : Host) (rule : Rule) (sub : JsVal) : Outcome JsVal :=
  match rule with
  | DeleteRule path => Ret (deleteProp path sub)
  | MaskRule fieldPath =>
      let data := _get sub fieldPath in
      value ← mask_value host data;
      mret (_set sub fieldPath value)
  end.

(** [modifyField(submission)]: the submission as the call leaves it, also
    when it throws.  The mask rule can only throw while it computes the
    argument of [_.set], before anything is written. *)
Definition modifyField (host : Host) (rule : Rule) (sub : JsVal) : JsVal :=
  match callRule host rule sub with
  | Ret sub' => sub'
  | _ => sub
  end.

(** The callback given to [eachComponent]: what one component, visited at
    [path] for the request [action], appends to [modifyFields]. *)
Definition component_rules (action : string) (visit : Component * string)
  : list Rule :=
  let path := "data." +:+ visit.2 in
  if c_protected visit.1 then [DeleteRule path]
  else if String.eqb (c_type visit.1) "signature" && String.eqb action "index"
       then [MaskRule path]
       else [].

Section Redaction.

Variable host : Host.

(** [formioUtils.eachComponent(form.components, fn, true)] comes from the
    package [formio-utils]: it calls [fn(component, path)] for the
    components of the form, in order.  The traversal is a parameter. *)
Variable Form : Type.
Variable eachComponent : Form → list (Component * string).

(** The rule list [modifyFields] built for a form and an action. *)
Definition computeRules (form : Form) (action : string) : list Rule :=
  flat_map (component_rules action) (eachComponent form).

(** [submissions instanceof Array ? submissions : [submissions]] *)
Definition as_array (submissions : JsVal) : list JsVal :=
  match submissions with
  | VArr subs => subs
  | _ => [submissions]
  end.

(** Every rule, in order, on one submission. *)
Definition applyRules (modifyFields : list Rule) (submission : JsVal)
  : Outcome JsVal :=
  foldM (fun sub rule => callRule host rule sub) submission modifyFields.

(** [removeProtectedFields(form, action, submissions)]: the submissions
    as the call leaves them when it returns. *)
Definition removeProtectedFields (form : Form) (action : string)
    (submissions : JsVal) : Outcome (list JsVal) :=
  let submissions := as_array submissions in
  let modifyFields := computeRules form action in
  if bool_decide (0 < length modifyFields)
  then mapM (applyRules modifyFields) submissions
  else mret submissions.

End Redaction.

(** ** Notions used by the properties *)

(** The names of the members that [Object.prototype] provides to every
    object. *)
Definition prototype_names : list string :=
  ["constructor"; "toString"; "toLocaleString"; "valueOf"; "hasOwnProperty";
   "isPrototypeOf"; "propertyIsEnumerable"; "__proto__";
   "__defineGetter__"; "__defineSetter__"; "__lookupGetter__";
   "__lookupSetter__"].

(** The read [v[k]] stays on the own properties: what it returns does not
    depend on a prototype.  For an object, [k] is a property of its own or
    is none of the names of [Object.prototype], and it is not [__proto__],
    which cannot be assigned as the other names can; for a string or an
    array, whose prototypes differ from host to host, and for a number or a
    boolean, [k] is ["length"] or an index. *)
Definition own_step (v : JsVal) (k : string) : bool :=
  match v with
  | VUndef | VNull => true
  | VObj props =>
      negb (String.eqb k "__proto__")
      && (bool_decide (is_Some (assoc_get k props))
          || negb (bool_decide (k ∈ prototype_names)))
  | _ => String.eqb k "length" || bool_decide (is_Some (index_of_key k))
  end.

(** Every read of the loop of [baseGet] stays on the own properties. *)
Fixpoint own_walk (path : list string) (object : JsVal) : bool :=
  match path with
  | [] => true
  | k :: rest =>
      is_nullish object || (own_step object k && own_walk rest (js_prop object k))
  end.

(** [_.get(data, key)] for a key in the dotted syntax, reading own
    properties only: the reads for which [_get] is what the code
    computes. *)
Definition own_read (data : JsVal) (key : string) : bool :=
  dotted key && (is_nullish data || own_walk (get_path data key) data).

(** [c'] is [c], possibly with its [multiple] flag cleared. *)
Definition cleared (c' c : Component) : Prop :=
  c' = c ∨ c' = set_multiple false c.

(** [cs'] has the paths of [cs] and, at each, the component of [cs] with
    its [multiple] flag possibly cleared. *)
Definition schema_le (cs' cs : Schema) : Prop :=
  ∀ k, option_Forall2 cleared (cs' !! k) (cs !! k).

(** A renderer only ever clears [multiple] flags of the schema. *)
Definition preserves
    (self : JsVal → string → Schema → Outcome (RenderedField * Schema)) : Prop :=
  ∀ data key cs r cs', self data key cs = Ret (r, cs') → schema_le cs' cs.

(** The components whose type is rendered without a recursive call and
    without a possible [TypeError]: every type but [container] and
    [datagrid], a [datetime] needing its [format] only when it has one. *)
Definition flat (c : Component) : bool :=
  match kind_of (c_type c) with
  | KContainer | KDatagrid => false
  | KDatetime => negb (c_enableDate c) || bool_decide (is_Some (c_format c))
  | _ => true
  end.

(** The value that [switch (component.type)] computes for such a
    component; only the concatenation of the [signature] case can throw. *)
Definition flat_value (host : Host) (c : Component) (value : JsVal)
  : Outcome JsVal :=
  match kind_of (c_type c) with
  | KPassword => Ret (VStr PASSWORD_MASK)
  | KAddress =>
      Ret (if truthy value then js_prop value "formatted_address" else VStr "")
  | KSignature =>
      src ← ToString value;
      mret (VStr ("<img src=" +:+ dq +:+ src +:+ dq +:+ " />"))
  | KDatetime =>
      let dateFormat := if c_enableDate c then toUpperCase (default "" (c_format c)) else "" in
      let dateFormat :=
        if c_enableTime c then dateFormat +:+ " hh:mm:ss A" else dateFormat in
      Ret (if String.eqb dateFormat "" then value
           else VStr (moment_format host value dateFormat))
  | KOptions => Ret (lookup_option (option_list c) value value)
  | _ => Ret value
  end.

(** The value of a single-value rendering of such a component. *)
Definition flat_render (host : Host) (c : Component) (value : JsVal)
  : Outcome JsVal :=
  v ← flat_value host c value;
  coerce (if c_protected c then VStr PROTECTED_MASK else v).

(** The element of a [multiple] value as the call made for it reads it
    back from the fresh object: under the key [__proto__] the assignment
    has stored nothing. *)
Definition element_value (key : string) (subValue : JsVal) : JsVal :=
  if String.eqb key "__proto__" then VUndef else subValue.

(** The schema holds the component [c] at [key] and has no path
    ["hasOwnProperty"]. *)
Definition single_at (key : string) (c : Component) (cs : Schema) : Prop :=
  cs !! key = Some c ∧ cs !! "hasOwnProperty" = None.

(** One element of a [multiple] value rendered as a single value of the
    component [c]: the steps after the [multiple] branch, on the element. *)
Definition single_element (host : Host)
    (self : JsVal → string → Schema → Outcome (RenderedField * Schema))
    (c : Component) (st : list JsVal * Schema) (subValue : JsVal)
  : Outcome (list JsVal * Schema) :=
  '(sub, components) ← render_single host self c (or_empty subValue) st.2;
  mret ((st.1 ++ [rf_value sub])%list, components).

(** A host and components to run the definitions on. *)
Definition plain_host : Host :=
  {| StringToNumber := λ _, None; moment_format := λ _ format, format |}.

Definition mk_component (key type : string) (multiple protected : bool)
  : Component :=
  {| c_key := key; c_type := type; c_label := ""; c_placeholder := "";
     c_multiple := multiple; c_protected := protected;
     c_values := None; c_data_values := None;
     c_enableDate := false; c_enableTime := false; c_format := None |}.

(** The one [TypeError] of the renderer: a [datetime] with [enableDate]
    and no [format] string. *)
Definition format_missing (c : Component) : bool :=
  match kind_of (c_type c) with
  | KDatetime => c_enableDate c && negb (bool_decide (is_Some (c_format c)))
  | _ => false
  end.

(** The single-value components that render an empty value as the empty
    string: not protected, and of a type that adds nothing of its own. *)
Definition renders_empty (c : Component) : bool :=
  negb (c_protected c) &&
  match kind_of (c_type c) with
  | KAddress | KOther => true
  | KOptions =>
      forallb (λ o, negb (strict_eq (o_value o) (VStr ""))) (option_list c)
  | KDatetime => negb (c_enableDate c) && negb (c_enableTime c)
  | _ => false
  end.

(** Every label of the option list has a string form. *)
Definition labels_convert (c : Component) : bool :=
  forallb (λ o, converts (o_label o)) (option_list c).

(** A component of the option family with its own [values]. *)
Definition mk_options (key type : string) (values : list OptionEntry)
  : Component :=
  {| c_key := key; c_type := type; c_label := ""; c_placeholder := "";
     c_multiple := false; c_protected := false;
     c_values := Some values; c_data_values := None;
     c_enableDate := false; c_enableTime := false; c_format := None |}.

(** The nesting depth of a value: arrays and objects inside one another. *)
Fixpoint depth (v : JsVal) : nat :=
  match v with
  | VArr xs => S (foldr (λ x n, max (depth x) n) 0 xs)
  | VObj props => S (foldr (λ kv n, max (depth kv.2) n) 0 props)
  | _ => 0
  end.

(** No path of the schema is the numeral of an array index ("0", "1",
    ...): form keys are identifiers. *)
Definition no_index_path (cs : Schema) : Prop :=
  ∀ i : nat, cs !! nat_to_string i = None.

(** Calls on values of depth at most [d] terminate within [2 * d + 3]
    levels. *)
Definition bounded (host : Host) (d : nat) : Prop :=
  ∀ cs data key fuel,
    no_index_path cs → depth (_get data key) ≤ d → 2 * d + 3 ≤ fuel →
    terminates (renderComponentValue host fuel data key cs).

(** ** Requests: [getHeader], [getQuery], [getParameter], [getRequestValue] *)

(** The fields of an Express request that the helpers read or write.
    [headers], [query] and [params] are objects, given by their own
    properties; [childRequests] is a number when present (it is only ever
    written by [createSubRequest]); a field that holds [VUndef] is absent. *)
Record Request : Type := {
  req_url : string;
  req_method : string;
  req_headers : list (string * JsVal);
  req_query : list (string * JsVal);
  req_params : list (string * JsVal);
  req_childRequests : option Z;
  req_formioCache : JsVal;
  req_user : JsVal;
  req_modelQuery : JsVal;
  req_countQuery : JsVal;
  req_actions : JsVal;
  req_resourceData : JsVal;
  req_skipResource : JsVal
}.

(** [typeof obj[key] !== 'undefined' ? obj[key] : false] *)
Definition value_or_false (obj : list (string * JsVal)) (key : string) : JsVal :=
  match default VUndef (assoc_get key obj) with
  | VUndef => VBool false
  | v => v
  end.

Definition getHeader (req : Request) (key : string) : JsVal :=
  value_or_false (req_headers req) key.

Definition getQuery (req : Request) (key : string) : JsVal :=
  value_or_false (req_query req) key.

Definition getParameter (req : Request) (key : string) : JsVal :=
  value_or_false (req_params req) key.

(** [ret !== false] *)
Definition not_false (ret : JsVal) : bool :=
  match ret with
  | VBool false => false
  | _ => true
  end.

Definition getRequestValue (req : Request) (key : string) : JsVal :=
  let ret := getHeader req key in
  if not_false ret then ret
  else
    let ret := getQuery req key in
    if not_false ret then ret
    else
      let ret := getParameter req key in
      if not_false ret then ret
      else VBool false.

(** ** [createSubRequest] *)

(** [createSubRequest(req)]: the child request, [None] for [null], and the
    request as the call leaves it ([delete req.formioCache] is done on the
    request itself).  [_.clone(req, true)] copies the fields. *)
Definition createSubRequest (req : Request) : option Request * Request :=
  let childRequests := default 0%Z (req_childRequests req) in
  if (5 <? childRequests)%Z then (None, req)
  else
    let cache := req_formioCache req in
    let req' :=
      {| req_url := req_url req; req_method := req_method req;
         req_headers := req_headers req; req_query := req_query req;
         req_params := req_params req;
         req_childRequests := req_childRequests req;
         req_formioCache := VUndef;
         req_user := req_user req; req_modelQuery := req_modelQuery req;
         req_countQuery := req_countQuery req; req_actions := req_actions req;
         req_resourceData := req_resourceData req;
         req_skipResource := req_skipResource req |} in
    let childReq :=
      {| req_url := req_url req'; req_method := req_method req';
         req_headers := req_headers req'; req_query := req_query req';
         req_params := req_params req';
         req_childRequests := Some (childRequests + 1)%Z;
         req_formioCache := cache;
         req_user := req_user req';
         req_modelQuery := VNull;
         req_countQuery := VNull;
         req_actions := VUndef;
         req_resourceData := VUndef;
         req_skipResource := VUndef |} in
    (Some childReq, req').

(** The request reached after [n] nested sub-requests, each created from
    the previous child; [None] once a [createSubRequest] has returned
    [null]. *)
Fixpoint nested_request (n : nat) (req : Request) : option Request :=
  match n with
  | O => Some req
  | S n' =>
      match (createSubRequest req).1 with
      | Some childReq => nested_request n' childReq
      | None => None
      end
  end.

(** ** [getUrlParams] *)

(** [s.split(sep)] for a one-character separator: empty parts are kept. *)
Fixpoint split_char (sep : Ascii.ascii) (cur s : string) : list string :=
  match s with
  | EmptyString => [cur]
  | String c s' =>
      if Ascii.eqb c sep then cur :: split_char sep "" s'
      else split_char sep (cur +:+ String c EmptyString) s'
  end.

(** The loop [for (a = 0; a < parts.length; a += 2)
    urlParams[parts[a]] = parts[a + 1]]. *)
Fixpoint build_params (parts : list string) (urlParams : list (string * JsVal))
  : list (string * JsVal) :=
  match parts with
  | [] => urlParams
  | [k] => obj_put k VUndef urlParams
  | k :: v :: rest => build_params rest (obj_put k (VStr v) urlParams)
  end.

(** [if ((parts.length % 2) !== 0) parts.push('')] *)
Definition pad_parts (parts : list string) : list string :=
  if Nat.eqb (length parts mod 2) 0 then parts else parts ++ [""].

Section UrlParams.

(** [nodeUrl.parse(url).pathname], from the [url] module of Node; [None]
    when the parsed url has no pathname ([null]). *)
Variable pathname : string → option string.

(** [getUrlParams(url)]; reading [split] of a missing pathname throws. *)
Definition getUrlParams (url : string) : Outcome JsVal :=
  if String.eqb url "" then Ret (VObj [])
  else
    match pathname url with
    | None => Throw
    | Some path =>
        let parts := split_char "/" "" path in
        let parts := tail parts in
        let parts := pad_parts parts in
        Ret (VObj (build_params parts []))
    end.

End UrlParams.

(** The key/value pairs of a list of parts, the last key paired with the
    empty string when it has no value. *)
Fixpoint url_pairs (parts : list string) : list (string * string) :=
  match parts with
  | [] => []
  | [k] => [(k, "")]
  | k :: v :: rest => (k, v) :: url_pairs rest
  end.

(** The value that the last pair with the key [k] gives. *)
Fixpoint last_value (k : string) (pairs : list (string * string)) : option string :=
  match pairs with
  | [] => None
  | (k', v) :: rest =>
      match last_value k rest with
      | Some v' => Some v'
      | None => if String.eqb k' k then Some v else None
      end
  end.

(** ** [getAlias] *)

(** The comparison of the flag [i]: two characters match when their upper
    case forms are equal. *)
Fixpoint starts_with_ci (pat s : string) : bool :=
  match pat with
  | EmptyString => true
  | String a pat' =>
      match s with
      | EmptyString => false
      | String b s' =>
          Ascii.eqb (upper_ascii a) (upper_ascii b) && starts_with_ci pat' s'
      end
  end.

(** A character of a word: a letter, a digit or the underscore. *)
Definition word_char (c : Ascii.ascii) : bool :=
  let n := Ascii.nat_of_ascii c in
  ((48 <=? n)%nat && (n <=? 57)%nat) || ((65 <=? n)%nat && (n <=? 90)%nat)
  || ((97 <=? n)%nat && (n <=? 122)%nat) || (n =? 95)%nat.

(** A name that, compiled into a regular expression, matches itself and
    nothing else (up to the case of its letters): a word. *)
Fixpoint literal_word (s : string) : bool :=
  match s with
  | EmptyString => true
  | String c s' => word_char c && literal_word s'
  end.

(** The alternatives of [reservedForms.join('|')]; the empty list joins to
    the empty pattern.  The names are words: as regular expressions they
    match themselves. *)
Definition alternatives (reservedForms : list string) : list string :=
  match reservedForms with
  | [] => [""]
  | _ => reservedForms
  end.

(** [/\/(name|...)/i] matches at the start of [s]. *)
Definition reserved_here (reservedForms : list string) (s : string) : bool :=
  match s with
  | String "/" rest =>
      existsb (λ name, starts_with_ci name rest) (alternatives reservedForms)
  | _ => false
  end.

(** The line terminators that [.] does not match, among the characters
    below 256. *)
Definition line_terminator (c : Ascii.ascii) : bool :=
  Ascii.eqb c "010" || Ascii.eqb c "013".

(** What is left of a string once [.*] has matched from its start. *)
Fixpoint after_line (s : string) : string :=
  match s with
  | EmptyString => EmptyString
  | String c s' => if line_terminator c then s else after_line s'
  end.

(** [s.replace(formsRegEx, '')]: the first match, from the left, is
    removed. *)
Fixpoint remove_reserved (reservedForms : list string) (s : string) : string :=
  match s with
  | EmptyString => EmptyString
  | String c s' =>
      if reserved_here reservedForms s then after_line s'
      else String c (remove_reserved reservedForms s')
  end.

(** [s.substr(n)] *)
Fixpoint substr_from (n : nat) (s : string) : string :=
  match n, s with
  | O, _ => s
  | S n', String _ s' => substr_from n' s'
  | S _, EmptyString => EmptyString
  end.

(** [{alias, additional}] *)
Record Alias : Type := {
  alias : string;
  additional : string
}.

(** [getAlias(req, reservedForms)].  The code compiles the reserved names
    into the regular expression [/\/(name|...).*/i]; the embedding covers
    the names that are words, for which the expression is the one that
    [remove_reserved] follows, and gives [None] for any other list of
    names. *)
Definition getAlias (req : Request) (reservedForms : list string)
  : option Alias :=
  if forallb literal_word reservedForms then
    let alias := remove_reserved reservedForms (substr_from 1 (req_url req)) in
    let additional := substr_from (String.length alias + 1) (req_url req) in
    let additional :=
      if String.eqb additional "" && String.eqb (req_method req) "POST"
      then "/submission" else additional in
    Some {| alias := alias; additional := additional |}
  else None.

(** ** [renderFormSubmission] *)

(** The component types that get no row of their own. *)
Definition skipped_type (type : string) : bool :=
  String.eqb type "container" || String.eqb type "button"
  || String.eqb type "hidden".

(** One call of the callback of [_.each(comps, ...)]. *)
Definition submission_row (host : Host) (fuel : nat) (data : JsVal)
    (st : string * Schema) (entry : string * Component)
  : Outcome (string * Schema) :=
  if skipped_type (c_type entry.2) then Ret st
  else
    '(cmpValue, comps) ← renderComponentValue host fuel data entry.1 st.2;
    match rf_value cmpValue with
    | VStr value =>
        Ret (st.1 +:+ "<tr>"
                  +:+ TH_GRID +:+ rf_label cmpValue +:+ "</th>"
                  +:+ TD_CONTAINER +:+ value +:+ "</td>"
                  +:+ "</tr>",
             comps)
    | _ => Ret (st.1, comps)
    end.

Section FormSubmission.

Variable host : Host.

(** [formioUtils.flattenComponents(components)] comes from the package
    [formio-utils]: the flattened components, path and component, in the
    order in which [_.each] visits the result.  It is a parameter. *)
Variable Components : Type.
Variable flattenComponents : Components → list (string * Component).

(** [renderFormSubmission(data, components)], with the recursion budget
    given to each call of [renderComponentValue]. *)
Definition renderFormSubmission (fuel : nat) (data : JsVal)
    (components : Components) : Outcome string :=
  let comps := flattenComponents components in
  '(submission, _) ←
    foldM (submission_row host fuel data)
          (TABLE_OPEN, list_to_map comps) comps;
  mret (submission +:+ "</table>").

End FormSubmission.

(** The row that a rendered field gives. *)
Definition field_row (field : RenderedField) : string :=
  "<tr>" +:+ TH_GRID +:+ rf_label field +:+ "</th>"
         +:+ TD_CONTAINER +:+ string_of (rf_value field) +:+ "</td>" +:+ "</tr>".

(** A request to run the definitions on. *)
Definition mk_request (url method : string) (childRequests : option Z)
  : Request :=
  {| req_url := url; req_method := method;
     req_headers := []; req_query := []; req_params := [];
     req_childRequests := childRequests;
     req_formioCache := VObj [("forms", VObj [])];
     req_user := VObj [("name", VStr "admin")];
     req_modelQuery := VUndef; req_countQuery := VUndef;
     req_actions := VUndef; req_resourceData := VUndef;
     req_skipResource := VUndef |}.

(** A string without a line terminator, as a url is. *)
Fixpoint one_line (s : string) : bool :=
  match s with
  | EmptyString => true
  | String c s' => negb (line_terminator c) && one_line s'
  end.

(** * Properties *)

(** ** Key conversion *)

Lemma replace_all_cons (pat rep : string) (c : Ascii.ascii) (s : string) :
  replace_all pat rep (String c s) =
  if starts_with pat (String c s)
  then rep +:+ replace_from pat rep (String.length pat - 1) s
  else String c (replace_all pat rep s).
Proof. reflexivity. Qed.

Lemma starts_with_other (a c : Ascii.ascii) (pat s : string) :
  c ≠ a → starts_with (String a pat) (String c s) = false.
Proof.
  intros Hc. change (Ascii.eqb a c && starts_with pat s = false).
  destruct (Ascii.eqb_spec a c) as [Heq|_]; [congruence|reflexivity].
Qed.

Lemma replace_submission_dot (t : string) :
  replace_all ".data." "." (".data." +:+ t) = "." +:+ replace_all ".data." "." t.
Proof. reflexivity. Qed.

Lemma replace_all_other (a c : Ascii.ascii) (pat rep t : string) :
  c ≠ a →
  replace_all (String a pat) rep (String c t)
  = String c (replace_all (String a pat) rep t).
Proof. intros Hc. by rewrite replace_all_cons, starts_with_other. Qed.

(** C10. Converting a form component key to a submission key and back gives
    the key again: [getFormComponentKey (getSubmissionKey key) = key].  The
    matches of [".data."] are found from the left, so they are exactly the
    separators that [getSubmissionKey] inserted; this holds for every key,
    in particular for the dotted keys none of whose segments is ["data"]. *)
Theorem getFormComponentKey_getSubmissionKey (key : string) :
  getFormComponentKey (getSubmissionKey key) = key.
Proof.
  unfold getFormComponentKey, getSubmissionKey.
  induction key as [|c key IH]; [reflexivity|].
  destruct (Ascii.eqb_spec c "."%char) as [->|Hc].
  - change (replace_all "." ".data." (String "." key))
      with (".data." +:+ replace_all "." ".data." key).
    rewrite replace_submission_dot, IH. reflexivity.
  - rewrite (replace_all_other "." c) by done.
    rewrite (replace_all_other "." c) by done.
    by rewrite IH.
Qed.

(** ** Outcomes and loops *)

Lemma bind_Ret_inv {A B : Type} (m : Outcome A) (f : A → Outcome B) (b : B) :
  m ≫= f = Ret b → ∃ a, m = Ret a ∧ f a = Ret b.
Proof. destruct m as [a| |]; [by exists a|done|done]. Qed.

Lemma bind_Ret {A B : Type} (a : A) (f : A → Outcome B) :
  Ret a ≫= f = f a.
Proof. reflexivity. Qed.

Lemma foldM_cons {A St : Type} (f : St → A → Outcome St) (st : St)
    (x : A) (l : list A) :
  foldM f st (x :: l) = f st x ≫= λ st', foldM f st' l.
Proof. reflexivity. Qed.

Lemma foldM_app {A St : Type} (f : St → A → Outcome St) (st : St) (l1 l2 : list A) :
  foldM f st (l1 ++ l2) = foldM f st l1 ≫= λ st', foldM f st' l2.
Proof.
  revert st. induction l1 as [|x l1 IH]; intros st; [reflexivity|].
  simpl. destruct (f st x) as [st'| |]; [apply IH|done|done].
Qed.

(** A property of the loop state that every iteration keeps holds when the
    loop is left. *)
Lemma foldM_invariant {A St : Type} (P : St → Prop)
    (f : St → A → Outcome St) (l : list A) :
  (∀ st x st', P st → f st x = Ret st' → P st') →
  ∀ st st', P st → foldM f st l = Ret st' → P st'.
Proof.
  intros Hstep. induction l as [|x l IH]; intros st st' HP Hfold.
  - simpl in Hfold. by inversion Hfold; subst.
  - simpl in Hfold. apply bind_Ret_inv in Hfold as (st1 & Hf & Hrest).
    eapply IH; [|exact Hrest]. eauto.
Qed.

(** Two loop bodies that agree on the states where an invariant holds give
    the same loop, from a state where it holds. *)
Lemma foldM_ext_invariant {A St : Type} (P : St → Prop)
    (f g : St → A → Outcome St) (l : list A) :
  (∀ st x, P st → f st x = g st x) →
  (∀ st x st', P st → g st x = Ret st' → P st') →
  ∀ st, P st → foldM f st l = foldM g st l.
Proof.
  intros Hfg Hstep. induction l as [|x l IH]; intros st HP; [reflexivity|].
  simpl. rewrite Hfg by done.
  destruct (g st x) as [st'| |] eqn:Hg; [|done|done].
  simpl. apply IH. eauto.
Qed.

(** ** The schema under [renderComponentValue] *)

Lemma set_multiple_idemp (b : bool) (c : Component) :
  set_multiple b (set_multiple b c) = set_multiple b c.
Proof. reflexivity. Qed.

Lemma set_multiple_id (c : Component) :
  set_multiple (c_multiple c) c = c.
Proof. by destruct c. Qed.

Lemma cleared_refl (c : Component) : cleared c c.
Proof. by left. Qed.

Lemma cleared_trans (c1 c2 c3 : Component) :
  cleared c1 c2 → cleared c2 c3 → cleared c1 c3.
Proof.
  intros [->| ->] [->| ->]; unfold cleared; rewrite ?set_multiple_idemp; auto.
Qed.

Lemma cleared_set_false (c' c : Component) :
  cleared c' c → set_multiple false c' = set_multiple false c.
Proof. by intros [->| ->]. Qed.

Lemma cleared_not_multiple (c' c : Component) :
  cleared c' c → c_multiple c = false → c' = c.
Proof.
  intros [->| ->] Hm; [done|]. rewrite <- Hm. apply set_multiple_id.
Qed.

Lemma schema_le_refl (cs : Schema) : schema_le cs cs.
Proof.
  intros k. destruct (cs !! k); constructor. apply cleared_refl.
Qed.

Lemma schema_le_trans (cs1 cs2 cs3 : Schema) :
  schema_le cs1 cs2 → schema_le cs2 cs3 → schema_le cs1 cs3.
Proof.
  intros H12 H23 k. specialize (H12 k). specialize (H23 k).
  destruct H12 as [c1 c2 Hc|]; inversion H23; subst; constructor.
  eapply cleared_trans; eauto.
Qed.

Lemma schema_le_clear (cs : Schema) (key : string) (c : Component) :
  cs !! key = Some c → schema_le (<[key := set_multiple false c]> cs) cs.
Proof.
  intros Hc k. destruct (decide (key = k)) as [->|Hne].
  - rewrite lookup_insert_eq, Hc. constructor. by right.
  - rewrite lookup_insert_ne by done. apply schema_le_refl.
Qed.

Lemma schema_le_lookup (cs' cs : Schema) (k : string) (c : Component) :
  schema_le cs' cs → cs !! k = Some c →
  ∃ c', cs' !! k = Some c' ∧ cleared c' c.
Proof.
  intros Hle Hc. specialize (Hle k). rewrite Hc in Hle.
  inversion Hle; subst. eauto.
Qed.

Lemma schema_le_lookup_None (cs' cs : Schema) (k : string) :
  schema_le cs' cs → cs !! k = None → cs' !! k = None.
Proof.
  intros Hle Hc. specialize (Hle k). rewrite Hc in Hle. by inversion Hle.
Qed.

(** A schema without a [multiple] component is left as it is. *)
Lemma schema_le_no_multiple (cs' cs : Schema) :
  schema_le cs' cs →
  (∀ k c, cs !! k = Some c → c_multiple c = false) →
  cs' = cs.
Proof.
  intros Hle Hno. apply map_eq. intros k. specialize (Hle k).
  destruct (cs !! k) as [c|] eqn:Hk; inversion Hle as [c' c0 Hc|]; subst; [|done].
  f_equal. eapply cleared_not_multiple; eauto.
Qed.

Section Preservation.

Variable host : Host.
Variable self : JsVal → string → Schema → Outcome (RenderedField * Schema).
Hypothesis Hself : preserves self.

Lemma render_element_preserves (key : string) (cs : Schema)
    (st st' : list JsVal * Schema) (x : JsVal) :
  schema_le st.2 cs → render_element self key st x = Ret st' → schema_le st'.2 cs.
Proof.
  intros HP Hstep. unfold render_element in Hstep.
  apply bind_Ret_inv in Hstep as ([sub c2] & Hs & Hr).
  inversion Hr; subst; simpl.
  eapply schema_le_trans; [eapply Hself; eauto|done].
Qed.

Lemma render_multiple_preserves (key : string) (value : JsVal)
    (cs cs' : Schema) (v : JsVal) :
  render_multiple self key value cs = Ret (v, cs') → schema_le cs' cs.
Proof.
  unfold render_multiple. intros H.
  apply bind_Ret_inv in H as ([vals cs1] & Hfold & Hret).
  apply bind_Ret_inv in Hret as (joined & _ & Hret).
  inversion Hret; subst.
  apply (foldM_invariant (λ st, schema_le st.2 cs)) in Hfold;
    [exact Hfold| |apply schema_le_refl].
  intros st x st'. apply render_element_preserves.
Qed.

Lemma render_container_preserves (value : JsVal) (cs cs' : Schema) (v : JsVal) :
  render_container self value cs = Ret (v, cs') → schema_le cs' cs.
Proof.
  unfold render_container. intros H.
  apply bind_Ret_inv in H as ([html cs1] & Hfold & Hret).
  inversion Hret; subst.
  apply (foldM_invariant (λ st, schema_le st.2 cs)) in Hfold;
    [exact Hfold| |apply schema_le_refl].
  intros st x st' HP Hstep. unfold container_row in Hstep.
  apply bind_Ret_inv in Hstep as ([sub c2] & Hs & Hr).
  apply bind_Ret_inv in Hr as (subValue & _ & Hr).
  inversion Hr; subst; simpl.
  eapply schema_le_trans; [eapply Hself; eauto|done].
Qed.

Lemma grid_row_preserves (columns : list Component) (cs : Schema)
    (st st' : string * Schema) (subValue : JsVal) :
  schema_le st.2 cs → grid_row self columns st subValue = Ret st' →
  schema_le st'.2 cs.
Proof.
  intros HP Hrow. unfold grid_row in Hrow.
  apply bind_Ret_inv in Hrow as ([html cs1] & Hfold & Hret).
  inversion Hret; subst; simpl.
  apply (foldM_invariant (λ st, schema_le st.2 cs)) in Hfold;
    [exact Hfold| |exact HP].
  intros st1 column st1' HP1 Hcell. unfold grid_cell in Hcell.
  apply bind_Ret_inv in Hcell as ([cell c2] & Hs & Hr).
  apply bind_Ret_inv in Hr as (cellValue & _ & Hr).
  inversion Hr; subst; simpl.
  eapply schema_le_trans; [eapply Hself; eauto|done].
Qed.

Lemma render_datagrid_preserves (value : JsVal) (cs cs' : Schema) (v : JsVal) :
  render_datagrid host self value cs = Ret (v, cs') → schema_le cs' cs.
Proof.
  unfold render_datagrid. intros H.
  apply bind_Ret_inv in H as (columns & _ & H).
  apply bind_Ret_inv in H as ([html cs1] & Hfold & Hret).
  inversion Hret; subst.
  apply (foldM_invariant (λ st, schema_le st.2 cs)) in Hfold;
    [exact Hfold| |apply schema_le_refl].
  intros st x st'. apply grid_row_preserves.
Qed.

Lemma dispatch_preserves (c : Component) (value : JsVal)
    (cs cs' : Schema) (v : JsVal) :
  dispatch host self c value cs = Ret (v, cs') → schema_le cs' cs.
Proof.
  unfold dispatch. intros H.
  destruct (kind_of (c_type c));
    try (inversion H; subst; apply schema_le_refl).
  - apply bind_Ret_inv in H as (src & _ & Hret).
    inversion Hret; subst. apply schema_le_refl.
  - by eapply render_container_preserves.
  - by eapply render_datagrid_preserves.
  - apply bind_Ret_inv in H as (v' & _ & Hret).
    inversion Hret; subst. apply schema_le_refl.
Qed.

Lemma render_single_preserves (c : Component) (value : JsVal)
    (cs cs' : Schema) (r : RenderedField) :
  render_single host self c value cs = Ret (r, cs') → schema_le cs' cs.
Proof.
  unfold render_single. intros H.
  apply bind_Ret_inv in H as ([v cs1] & Hd & Hret).
  apply bind_Ret_inv in Hret as (v' & _ & Hret).
  inversion Hret; subst. by eapply dispatch_preserves.
Qed.

Lemma render_body_preserves : preserves (render_body host self).
Proof.
  intros data key cs r cs' H. unfold render_body in H.
  apply bind_Ret_inv in H as (known & Hknown & H).
  unfold lookup_own in Hknown.
  destruct (cs !! "hasOwnProperty"); [done|].
  inversion Hknown; subst known.
  destruct (cs !! key) as [c|] eqn:Hc.
  - destruct (c_multiple c).
    + apply bind_Ret_inv in H as ([v cs1] & Hm & Hret).
      inversion Hret; subst.
      eapply schema_le_trans; [by eapply render_multiple_preserves|].
      by apply schema_le_clear.
    + by eapply render_single_preserves.
  - inversion H; subst. apply schema_le_refl.
Qed.

End Preservation.

Lemma renderComponentValue_preserves (host : Host) (fuel : nat) :
  preserves (renderComponentValue host fuel).
Proof.
  induction fuel as [|fuel IH]; [by intros data key cs r cs' H|].
  by apply render_body_preserves.
Qed.

(** ** Unfolding one call *)

Lemma renderComponentValue_S (host : Host) (fuel : nat)
    (data : JsVal) (key : string) (cs : Schema) :
  renderComponentValue host (S fuel) data key cs
  = render_body host (renderComponentValue host fuel) data key cs.
Proof. reflexivity. Qed.

Lemma assoc_get_head (k : string) (v : JsVal) (props : list (string * JsVal)) :
  assoc_get k ((k, v) :: props) = Some v.
Proof. simpl. by rewrite String.eqb_refl. Qed.

Lemma get_singleton (key : string) (x : JsVal) :
  _get (VObj [(key, x)]) key = x.
Proof.
  unfold _get, get_path, js_in. rewrite assoc_get_head.
  simpl. by rewrite String.eqb_refl.
Qed.

(** The element wrapped by the [multiple] branch is found again under the
    key, unless the key is [__proto__]. *)
Lemma get_wrapped (key : string) (x : JsVal) :
  _get (VObj (obj_put key x [])) key = element_value key x.
Proof.
  unfold element_value, obj_put.
  destruct (String.eqb_spec key "__proto__") as [->|Hne]; [reflexivity|].
  apply get_singleton.
Qed.

Lemma element_value_plain (key : string) (xs : list JsVal) :
  key ≠ "__proto__" → element_value key <$> xs = xs.
Proof.
  intros Hne. unfold element_value.
  destruct (String.eqb_spec key "__proto__"); [done|].
  induction xs as [|x xs IH]; [done|]. by rewrite fmap_cons, IH.
Qed.

Lemma foldM_fmap {A B St : Type} (f : St → B → Outcome St) (g : A → B)
    (st : St) (l : list A) :
  foldM f st (g <$> l) = foldM (λ st x, f st (g x)) st l.
Proof.
  revert st. induction l as [|x l IH]; intros st; [reflexivity|].
  rewrite fmap_cons, !foldM_cons. destruct (f st (g x)); [apply IH|done|done].
Qed.

Lemma imap_values {A : Type} (name : nat → string) (xs : list A) :
  (imap (λ i x, (name i, x)) xs).*2 = xs.
Proof.
  revert name. induction xs as [|x xs IH]; intros name; [done|].
  simpl. f_equal. apply (IH (name ∘ S)).
Qed.

Lemma each_entries_array (xs : list JsVal) :
  (each_entries (VArr xs)).*2 = xs.
Proof. apply imap_values. Qed.

Lemma coerce_string (v w : JsVal) : coerce v = Ret w → ∃ s, w = VStr s.
Proof.
  unfold coerce. destruct (truthy v).
  - intros H. apply bind_Ret_inv in H as (s & _ & H). inversion H; eauto.
  - intros H. inversion H; eauto.
Qed.


Lemma coerce_str (s : string) : coerce (VStr s) = Ret (VStr s).
Proof.
  unfold coerce. simpl. destruct (String.eqb_spec s ""); by subst.
Qed.

(** Joining strings never throws. *)
Lemma mapM_join_strings (ss : list string) :
  mapM join_element (VStr <$> ss) = Ret ss.
Proof.
  induction ss as [|s ss IH]; [reflexivity|].
  rewrite fmap_cons.
  change (mapM join_element (VStr s :: (VStr <$> ss)))
    with (join_element (VStr s) ≫= λ y,
          mapM join_element (VStr <$> ss) ≫= λ ys, mret (y :: ys)).
  by rewrite IH.
Qed.

Lemma array_join_strings (sep : string) (ss : list string) :
  array_join sep (VStr <$> ss) = Ret (String.concat sep ss).
Proof. unfold array_join. by rewrite mapM_join_strings. Qed.

(** A schema with a path ["hasOwnProperty"] cannot be rendered at all. *)
Lemma render_shadowed (host : Host) (fuel : nat)
    (data : JsVal) (key : string) (cs : Schema) :
  is_Some (cs !! "hasOwnProperty") →
  renderComponentValue host (S fuel) data key cs = Throw.
Proof.
  intros [c Hc]. rewrite renderComponentValue_S.
  unfold render_body, lookup_own. by rewrite Hc.
Qed.

Lemma lookup_own_plain (cs : Schema) (key : string) :
  cs !! "hasOwnProperty" = None → lookup_own cs key = Ret (cs !! key).
Proof. intros H. unfold lookup_own. by rewrite H. Qed.

Lemma lookup_own_Ret (cs : Schema) (key : string) (known : option Component) :
  lookup_own cs key = Ret known →
  cs !! "hasOwnProperty" = None ∧ known = cs !! key.
Proof.
  unfold lookup_own. destruct (cs !! "hasOwnProperty"); [done|].
  intros H. by inversion H.
Qed.

(** The body of a call on a schema without a path ["hasOwnProperty"]. *)
Lemma render_body_plain (host : Host)
    (self : JsVal → string → Schema → Outcome (RenderedField * Schema))
    (data : JsVal) (key : string) (cs : Schema) :
  cs !! "hasOwnProperty" = None →
  render_body host self data key cs
  = match cs !! key with
    | None =>
        Ret ({| rf_label := key; rf_value := or_empty (_get data key) |}, cs)
    | Some c =>
        if c_multiple c then
          '(v, cs') ← render_multiple self key (or_empty (_get data key))
                        (<[key := set_multiple false c]> cs);
          mret ({| rf_label := component_label c; rf_value := v |}, cs')
        else render_single host self c (or_empty (_get data key)) cs
    end.
Proof.
  intros Hown. unfold render_body. by rewrite lookup_own_plain.
Qed.

(** A call that returns was made on such a schema. *)
Lemma render_body_Ret (host : Host)
    (self : JsVal → string → Schema → Outcome (RenderedField * Schema))
    (data : JsVal) (key : string) (cs : Schema) (res : RenderedField * Schema) :
  render_body host self data key cs = Ret res → cs !! "hasOwnProperty" = None.
Proof.
  unfold render_body. intros H.
  apply bind_Ret_inv in H as (known & Hknown & _).
  by apply lookup_own_Ret in Hknown as [? _].
Qed.


(** For a flat component the type dispatch is a function of the value: no
    recursive call, the schema untouched. *)
Lemma dispatch_flat (host : Host)
    (self : JsVal → string → Schema → Outcome (RenderedField * Schema))
    (c : Component) (value : JsVal) (cs : Schema) :
  flat c = true →
  dispatch host self c value cs = (v ← flat_value host c value; mret (v, cs)).
Proof.
  unfold flat, dispatch, flat_value, render_datetime.
  destruct (kind_of (c_type c)); try done.
  - intros _. by destruct (ToString value).
  - intros Hf. destruct (c_enableDate c); [|done].
    destruct (c_format c); [done|]. done.
Qed.

Lemma render_single_flat (host : Host)
    (self : JsVal → string → Schema → Outcome (RenderedField * Schema))
    (c : Component) (value : JsVal) (cs : Schema) :
  flat c = true →
  render_single host self c value cs
  = (v ← flat_render host c value;
     mret ({| rf_label := component_label c; rf_value := v |}, cs)).
Proof.
  intros Hf. unfold render_single, flat_render. rewrite dispatch_flat by done.
  destruct (flat_value host c value) as [v| |]; [|done|done].
  rewrite !bind_Ret. reflexivity.
Qed.

(** A single-value rendering that returns gives a string. *)
Lemma render_single_string (host : Host)
    (self : JsVal → string → Schema → Outcome (RenderedField * Schema))
    (c : Component) (value : JsVal) (cs cs' : Schema) (r : RenderedField) :
  render_single host self c value cs = Ret (r, cs') →
  rf_label r = component_label c ∧ ∃ s, rf_value r = VStr s.
Proof.
  unfold render_single. intros H.
  apply bind_Ret_inv in H as ([v cs1] & _ & H).
  apply bind_Ret_inv in H as (w & Hw & H).
  inversion H; subst. simpl. split; [done|]. by eapply coerce_string.
Qed.

(** ** The [multiple] branch *)

Section Multiple.

Variable host : Host.
Variable fuel : nat.
Variable key : string.
Variable c0 : Component.
Hypothesis Hsingle : c_multiple c0 = false.

(** As long as the schema holds [c0] at [key], with its [multiple] flag
    off, the call made for an element takes the single-value path. *)
Lemma render_element_single (st : list JsVal * Schema) (x : JsVal) :
  single_at key c0 st.2 →
  render_element (renderComponentValue host (S fuel)) key st x
  = single_element host (renderComponentValue host fuel) c0 st
      (element_value key x).
Proof.
  intros [Hc Hown]. unfold render_element, single_element.
  rewrite renderComponentValue_S. unfold render_body.
  rewrite lookup_own_plain by done. rewrite bind_Ret.
  by rewrite get_wrapped, Hc, Hsingle.
Qed.

Lemma single_element_keeps (st st' : list JsVal * Schema) (x : JsVal) :
  single_at key c0 st.2 →
  single_element host (renderComponentValue host fuel) c0 st x = Ret st' →
  single_at key c0 st'.2.
Proof.
  intros [Hc Hown] Hstep. unfold single_element in Hstep.
  apply bind_Ret_inv in Hstep as ([sub cs1] & Hs & Hr).
  inversion Hr; subst; simpl.
  apply render_single_preserves in Hs; [|apply renderComponentValue_preserves].
  split.
  - destruct (schema_le_lookup _ _ _ _ Hs Hc) as (c' & Hc' & Hcl).
    by rewrite Hc', (cleared_not_multiple _ _ Hcl Hsingle).
  - by eapply schema_le_lookup_None.
Qed.

Lemma render_elements_single (st : list JsVal * Schema) (xs : list JsVal) :
  single_at key c0 st.2 →
  foldM (render_element (renderComponentValue host (S fuel)) key) st xs
  = foldM (single_element host (renderComponentValue host fuel) c0) st
      (element_value key <$> xs).
Proof.
  rewrite foldM_fmap.
  apply (foldM_ext_invariant (λ st, single_at key c0 st.2)).
  - intros st1 x. apply render_element_single.
  - intros st1 x st1'. apply single_element_keeps.
Qed.

End Multiple.

(** The [multiple] branch, one level down: every element is rendered as a
    single value of the component with its flag off. *)
Lemma render_multiple_elements (host : Host) (fuel : nat)
    (data : JsVal) (key : string) (cs : Schema) (c : Component) :
  cs !! "hasOwnProperty" = None →
  cs !! key = Some c → c_multiple c = true →
  renderComponentValue host (S (S fuel)) data key cs
  = '(rendered, cs') ←
      foldM (single_element host (renderComponentValue host fuel)
               (set_multiple false c))
            ([], <[key := set_multiple false c]> cs)
            (element_value key <$> (each_entries (or_empty (_get data key))).*2);
    joined ← array_join ", " rendered;
    mret ({| rf_label := component_label c; rf_value := VStr joined |}, cs').
Proof.
  intros Hown Hc Hm. rewrite renderComponentValue_S. unfold render_body.
  rewrite lookup_own_plain by done. rewrite bind_Ret, Hc, Hm.
  unfold render_multiple.
  rewrite (render_elements_single host fuel key (set_multiple false c));
    [|done|].
  - destruct (foldM _ _ _) as [[rendered cs']| |]; [|done|done].
    rewrite !bind_Ret. by destruct (array_join ", " rendered).
  - split; simpl; [apply lookup_insert_eq|].
    rewrite lookup_insert_ne; [done|]. intros Heq. congruence.
Qed.

Lemma render_multiple_unfold (host : Host) (fuel : nat)
    (data : JsVal) (key : string) (cs : Schema) (c : Component) :
  key ≠ "__proto__" → cs !! "hasOwnProperty" = None →
  cs !! key = Some c → c_multiple c = true →
  renderComponentValue host (S (S fuel)) data key cs
  = '(rendered, cs') ←
      foldM (single_element host (renderComponentValue host fuel)
               (set_multiple false c))
            ([], <[key := set_multiple false c]> cs)
            (each_entries (or_empty (_get data key))).*2;
    joined ← array_join ", " rendered;
    mret ({| rf_label := component_label c; rf_value := VStr joined |}, cs').
Proof.
  intros Hkey Hown Hc Hm.
  rewrite (render_multiple_elements host fuel data key cs c) by done.
  by rewrite element_value_plain.
Qed.

(** A read under the key [__proto__] does not stay on own properties. *)
Lemma own_read_proto (data : JsVal) :
  own_read data "__proto__" = true → _get data "__proto__" = VUndef.
Proof.
  unfold own_read, _get. intros [_ Hwalk]%andb_prop.
  destruct (is_nullish data) eqn:Hnull; [done|]. simpl in Hwalk.
  assert (get_path data "__proto__" = ["__proto__"]) as Hpath
    by (unfold get_path; by destruct (js_in _ _)).
  rewrite Hpath in Hwalk |- *. simpl in Hwalk. rewrite Hnull in Hwalk.
  by destruct data.
Qed.

(** The elements of a value read from own properties are read back as they
    are by the calls made for them. *)
Lemma own_read_elements (data : JsVal) (key : string) :
  own_read data key = true →
  element_value key <$> (each_entries (or_empty (_get data key))).*2
  = (each_entries (or_empty (_get data key))).*2.
Proof.
  intros Hread. destruct (String.eqb_spec key "__proto__") as [->|Hne];
    [|by apply element_value_plain].
  by rewrite own_read_proto.
Qed.

Lemma render_multiple_own (host : Host) (fuel : nat)
    (data : JsVal) (key : string) (cs : Schema) (c : Component) :
  own_read data key = true → cs !! "hasOwnProperty" = None →
  cs !! key = Some c → c_multiple c = true →
  renderComponentValue host (S (S fuel)) data key cs
  = '(rendered, cs') ←
      foldM (single_element host (renderComponentValue host fuel)
               (set_multiple false c))
            ([], <[key := set_multiple false c]> cs)
            (each_entries (or_empty (_get data key))).*2;
    joined ← array_join ", " rendered;
    mret ({| rf_label := component_label c; rf_value := VStr joined |}, cs').
Proof.
  intros Hread Hown Hc Hm.
  rewrite (render_multiple_elements host fuel data key cs c) by done.
  by rewrite own_read_elements.
Qed.

Lemma single_element_flat (host : Host)
    (self : JsVal → string → Schema → Outcome (RenderedField * Schema))
    (c : Component) (st : list JsVal * Schema) (x : JsVal) :
  flat c = true →
  single_element host self c st x
  = (v ← flat_render host c (or_empty x); mret (st.1 ++ [v], st.2)).
Proof.
  intros Hf. unfold single_element. rewrite render_single_flat by done.
  by destruct (flat_render host c (or_empty x)).
Qed.

(** The elements of a flat component: no recursion, the schema stays. *)
Lemma single_elements_flat (host : Host)
    (self : JsVal → string → Schema → Outcome (RenderedField * Schema))
    (c : Component) (cs : Schema) (xs acc : list JsVal) :
  flat c = true →
  foldM (single_element host self c) (acc, cs) xs
  = (vs ← mapM (λ x, flat_render host c (or_empty x)) xs; mret (acc ++ vs, cs)).
Proof.
  intros Hf. revert acc. induction xs as [|x xs IH]; intros acc.
  - simpl. by rewrite app_nil_r.
  - rewrite foldM_cons, single_element_flat by done.
    change (mapM (λ x, flat_render host c (or_empty x)) (x :: xs))
      with (flat_render host c (or_empty x) ≫= λ y,
            mapM (λ x, flat_render host c (or_empty x)) xs ≫= λ ys,
            mret (y :: ys)).
    destruct (flat_render host c (or_empty x)) as [v| |]; [|done|done].
    rewrite !bind_Ret. cbn [fst snd]. rewrite IH.
    destruct (mapM _ xs) as [vs| |]; [|done|done].
    rewrite !bind_Ret. by rewrite <- app_assoc.
Qed.


(** The elements rendered are strings, one for each element. *)
Lemma single_elements_strings (host : Host)
    (self : JsVal → string → Schema → Outcome (RenderedField * Schema))
    (c : Component) (xs : list JsVal) :
  ∀ st st', foldM (single_element host self c) st xs = Ret st' →
  ∃ ss, length ss = length xs ∧ st'.1 = st.1 ++ (VStr <$> ss).
Proof.
  induction xs as [|x xs IH]; intros st st' Hfold.
  - simpl in Hfold. inversion Hfold; subst. exists []. by rewrite app_nil_r.
  - rewrite foldM_cons in Hfold.
    apply bind_Ret_inv in Hfold as (st1 & Hstep & Hrest).
    apply IH in Hrest as (ss & Hlen & Hrest). rewrite Hrest.
    unfold single_element in Hstep.
    apply bind_Ret_inv in Hstep as ([sub cs1] & Hs & Hr).
    apply render_single_string in Hs as (_ & s & Hs).
    inversion Hr; subst. exists (s :: ss). split; [simpl; lia|].
    simpl. rewrite Hs. by rewrite <- app_assoc.
Qed.

(** ** The schema is mutated (C3) *)

(** C3 (counterexample). Rendering the [multiple] component [tags] leaves a
    schema behind that is not the schema passed in: the [multiple] flag of
    [tags] has been set to [false] in it. *)
Lemma renderComponentValue_mutates_schema :
  let cs : Schema := {[ "tags" := mk_component "tags" "textfield" true false ]} in
  ∃ r cs',
    renderComponentValue plain_host 2
      (VObj [("tags", VArr [VStr "a"; VStr "b"])]) "tags" cs = Ret (r, cs')
    ∧ c_multiple <$> cs !! "tags" = Some true
    ∧ c_multiple <$> cs' !! "tags" = Some false
    ∧ cs' ≠ cs.
Proof.
  intros cs. eexists _, _. split; [vm_compute; reflexivity|].
  split; [vm_compute; reflexivity|]. split; [vm_compute; reflexivity|].
  intros Heq. apply (f_equal (λ m : Schema, c_multiple <$> m !! "tags")) in Heq.
  vm_compute in Heq. discriminate.
Qed.

(** C3 (as amended). [renderComponentValue] mutates the schema, but only in
    the [multiple] flags: after a call that returns, the schema has the same
    paths and at each path the same component, except that [multiple] flags
    may have been set to [false]; the flag of the component rendered as
    [multiple] has been set to [false] and stays so after the call; a schema
    without a [multiple] component is left unchanged. *)
Theorem renderComponentValue_clears_multiple (host : Host) (fuel : nat)
    (data : JsVal) (key : string) (cs cs' : Schema) (r : RenderedField) :
  renderComponentValue host fuel data key cs = Ret (r, cs') →
  schema_le cs' cs
  ∧ (∀ c, cs !! key = Some c → c_multiple c = true →
          cs' !! key = Some (set_multiple false c))
  ∧ ((∀ k c, cs !! k = Some c → c_multiple c = false) → cs' = cs).
Proof.
  intros Hrun.
  assert (schema_le cs' cs) as Hle by (by eapply renderComponentValue_preserves).
  split; [done|]. split; [|by apply schema_le_no_multiple].
  intros c Hc Hm. destruct fuel as [|fuel]; [done|].
  rewrite renderComponentValue_S in Hrun.
  rewrite render_body_plain in Hrun by (by eapply render_body_Ret).
  rewrite Hc, Hm in Hrun.
  apply bind_Ret_inv in Hrun as ([v cs1] & Hmul & Hret).
  inversion Hret; subst.
  apply render_multiple_preserves in Hmul;
    [|apply renderComponentValue_preserves].
  destruct (schema_le_lookup _ _ key (set_multiple false c) Hmul)
    as (c' & Hc' & Hcl); [apply lookup_insert_eq|].
  rewrite Hc'. f_equal. by apply cleared_not_multiple.
Qed.

Lemma renderComponentValue_clears_multiple_witness :
  let cs : Schema := {[ "tags" := mk_component "tags" "textfield" true false ]} in
  let cs' : Schema := {[ "tags" := mk_component "tags" "textfield" false false ]} in
  renderComponentValue plain_host 2
    (VObj [("tags", VArr [VStr "a"; VStr "b"])]) "tags" cs
  = Ret ({| rf_label := "tags"; rf_value := VStr "a, b" |}, cs')
  ∧ schema_le cs' cs
  ∧ (∀ c, cs !! "tags" = Some c → c_multiple c = true →
          cs' !! "tags" = Some (set_multiple false c))
  ∧ ((∀ k c, cs !! k = Some c → c_multiple c = false) → cs' = cs).
Proof.
  intros cs cs'.
  assert (renderComponentValue plain_host 2
            (VObj [("tags", VArr [VStr "a"; VStr "b"])]) "tags" cs
          = Ret ({| rf_label := "tags"; rf_value := VStr "a, b" |}, cs')) as Hrun
    by (vm_compute; reflexivity).
  split; [exact Hrun|].
  exact (renderComponentValue_clears_multiple plain_host 2 _ "tags" cs cs' _ Hrun).
Defined.

(** ** The value is a string when the path is in the schema (C4) *)

(** C4 (counterexample). A path that is not in the flattened schema is
    rendered by the early return, before the coercion: the number stored at
    [age] comes back as a number. *)
Lemma passthrough_value_not_string :
  renderComponentValue plain_host 1 (VObj [("age", VNum 42)]) "age" ∅
  = Ret ({| rf_label := "age"; rf_value := VNum 42 |}, ∅)
  ∧ ∀ s, VNum 42 ≠ VStr s.
Proof. split; [vm_compute; reflexivity|done]. Qed.

(** C4 (as amended). When the path is in the flattened schema the value
    that the call returns is a string.  When it is not, and the schema has
    no path ["hasOwnProperty"] (the call throws on such a schema), the call
    returns the raw value itself under the path as label, not coerced to a
    string; only a falsy raw value is replaced by the empty string.  The raw
    value is the one read from own properties, by a key in the dotted
    syntax. *)
Theorem renderComponentValue_value (host : Host) (fuel : nat)
    (data : JsVal) (key : string) (cs : Schema) :
  (∀ c r cs', cs !! key = Some c →
     renderComponentValue host fuel data key cs = Ret (r, cs') →
     ∃ s, rf_value r = VStr s)
  ∧ (cs !! key = None → cs !! "hasOwnProperty" = None →
     own_read data key = true →
     renderComponentValue host (S fuel) data key cs
     = Ret ({| rf_label := key; rf_value := or_empty (_get data key) |}, cs))
  ∧ (is_Some (cs !! "hasOwnProperty") →
     renderComponentValue host (S fuel) data key cs = Throw).
Proof.
  split; [|split].
  - intros c r cs' Hc Hrun. destruct fuel as [|fuel]; [done|].
    rewrite renderComponentValue_S in Hrun.
    rewrite render_body_plain in Hrun by (by eapply render_body_Ret).
    rewrite Hc in Hrun. destruct (c_multiple c).
    + apply bind_Ret_inv in Hrun as ([v cs1] & Hmul & Hret).
      inversion Hret; subst. unfold render_multiple in Hmul.
      apply bind_Ret_inv in Hmul as ([rendered cs2] & _ & Hret').
      apply bind_Ret_inv in Hret' as (joined & _ & Hret').
      inversion Hret'; subst. simpl. eauto.
    + apply render_single_string in Hrun as (_ & Hs). exact Hs.
  - intros Hc Hown _. rewrite renderComponentValue_S.
    rewrite render_body_plain by done. by rewrite Hc.
  - apply render_shadowed.
Qed.

Lemma renderComponentValue_value_witness :
  let c := mk_component "age" "number" false false in
  let cs : Schema := {[ "age" := c ]} in
  let data := VObj [("age", VNum 42)] in
  let rendered := {| rf_label := "age"; rf_value := VStr "42" |} in
  (cs !! "age" = Some c
   ∧ renderComponentValue plain_host 1 data "age" cs = Ret (rendered, cs)
   ∧ cs !! "years" = None ∧ cs !! "hasOwnProperty" = None
   ∧ own_read data "years" = true)
  ∧ (∃ s, rf_value rendered = VStr s)
  ∧ renderComponentValue plain_host 1 data "years" cs
    = Ret ({| rf_label := "years"; rf_value := VStr "" |}, cs).
Proof.
  intros c cs data rendered.
  assert (cs !! "age" = Some c) as Hc by (vm_compute; reflexivity).
  assert (renderComponentValue plain_host 1 data "age" cs = Ret (rendered, cs))
    as Hrun by (vm_compute; reflexivity).
  assert (cs !! "years" = None) as Hnone by (vm_compute; reflexivity).
  assert (cs !! "hasOwnProperty" = None) as Hown by (vm_compute; reflexivity).
  assert (own_read data "years" = true) as Hread by (vm_compute; reflexivity).
  split; [done|]. split.
  - exact (proj1 (renderComponentValue_value plain_host 1 data "age" cs)
             c rendered cs Hc Hrun).
  - exact (proj1 (proj2 (renderComponentValue_value plain_host 0 data "years" cs))
             Hnone Hown Hread).
Defined.

(** ** Termination *)

Lemma terminates_bind {A B : Type} (m : Outcome A) (f : A → Outcome B) :
  terminates m → (∀ a, m = Ret a → terminates (f a)) → terminates (m ≫= f).
Proof. destruct m as [a| |]; [by eauto|done|done]. Qed.

(** A loop terminates when its body does in every state that an invariant
    of the loop allows. *)
Lemma foldM_terminates {A St : Type} (P : St → Prop)
    (f : St → A → Outcome St) (l : list A) :
  (∀ st x, x ∈ l → P st → terminates (f st x)) →
  (∀ st x st', P st → f st x = Ret st' → P st') →
  ∀ st, P st → terminates (foldM f st l).
Proof.
  intros Hterm Hstep. induction l as [|x l IH]; intros st HP; [done|].
  rewrite foldM_cons. apply terminates_bind.
  - apply Hterm; [by left|done].
  - intros st' Hf. apply IH; [|by eauto].
    intros st1 y Hy. apply Hterm. by right.
Qed.

Lemma depth_element (x : JsVal) (xs : list JsVal) :
  x ∈ xs → depth x ≤ foldr (λ x n, max (depth x) n) 0 xs.
Proof.
  induction 1 as [x xs|x y xs _ IH]; simpl; lia.
Qed.

Lemma depth_property (k : string) (v : JsVal) (props : list (string * JsVal)) :
  assoc_get k props = Some v →
  depth v ≤ foldr (λ kv n, max (depth kv.2) n) 0 props.
Proof.
  induction props as [|[k' v'] props IH]; simpl; [done|].
  destruct (String.eqb k' k).
  - intros [= ->]. lia.
  - intros Hget. specialize (IH Hget). lia.
Qed.

Lemma depth_value (kv : string * JsVal) (props : list (string * JsVal)) :
  kv ∈ props → depth kv.2 ≤ foldr (λ kv n, max (depth kv.2) n) 0 props.
Proof.
  induction 1 as [kv props|kv kv' props _ IH]; simpl; lia.
Qed.

Lemma depth_js_prop (v : JsVal) (k : string) :
  depth (js_prop v k) ≤ pred (depth v).
Proof.
  destruct v as [| | | |s|xs|props]; simpl; try lia.
  - destruct (String.eqb k "length"); [simpl; lia|].
    destruct (index_of_key k) as [i|]; [|simpl; lia].
    destruct (chars s !! i); simpl; lia.
  - destruct (String.eqb k "length"); [simpl; lia|].
    destruct (index_of_key k) as [i|]; [|simpl; lia].
    destruct (xs !! i) as [x|] eqn:Hx; [|simpl; lia].
    simpl. apply depth_element. by eapply list_elem_of_lookup_2.
  - destruct (assoc_get k props) as [v|] eqn:Hv; [|simpl; lia].
    simpl. by eapply depth_property.
Qed.

Lemma depth_get_walk (segs : list string) (v : JsVal) :
  segs ≠ [] → depth (get_walk segs v) ≤ pred (depth v).
Proof.
  revert v. induction segs as [|k rest IH]; intros v Hne; [done|].
  simpl. destruct (is_nullish v); [simpl; lia|].
  destruct rest as [|k2 rest]; [apply depth_js_prop|].
  etrans; [by apply IH|].
  pose proof (depth_js_prop v k). lia.
Qed.

Lemma depth_get (v : JsVal) (k : string) :
  depth (_get v k) ≤ pred (depth v).
Proof.
  unfold _get. destruct (is_nullish v); [simpl; lia|].
  destruct (get_path v k) as [|seg segs] eqn:Hp; [simpl; lia|].
  by apply depth_get_walk.
Qed.

Lemma depth_or_empty (v : JsVal) : depth (or_empty v) ≤ depth v.
Proof. unfold or_empty. destruct (truthy v); simpl; lia. Qed.

(** What [_.each] visits lies one level down. *)
Lemma depth_entry (v : JsVal) (entry : string * JsVal) :
  entry ∈ each_entries v → depth entry.2 ≤ pred (depth v).
Proof.
  destruct v as [| | | |s|xs|props]; simpl; try (by intros ?%elem_of_nil).
  - intros (i & c & -> & _)%elem_of_lookup_imap. simpl. lia.
  - intros (i & x & -> & Hx)%elem_of_lookup_imap. simpl.
    apply depth_element. by eapply list_elem_of_lookup_2.
  - destruct (isLength _) as [n|].
    + intros (i & -> & _)%list_elem_of_fmap. simpl.
      destruct (assoc_get (nat_to_string i) props) as [x|] eqn:Hx; [|simpl; lia].
      simpl. by eapply depth_property.
    + apply depth_value.
Qed.

(** The keys that [_.each] finds in a value without nesting (a string) are
    array indices. *)
Lemma flat_entry_index (v : JsVal) (entry : string * JsVal) :
  depth v = 0 → entry ∈ each_entries v → ∃ i, entry.1 = nat_to_string i.
Proof.
  destruct v as [| | | |s|xs|props]; simpl; try done;
    try (by intros _ ?%elem_of_nil).
  intros _ (i & c & -> & _)%elem_of_lookup_imap. by exists i.
Qed.

Lemma no_index_path_le (cs' cs : Schema) :
  schema_le cs' cs → no_index_path cs → no_index_path cs'.
Proof. intros Hle Hno i. by eapply schema_le_lookup_None. Qed.

(** The conversions and the lookups make no call: they return or throw. *)
Lemma ToString_terminates (v : JsVal) : terminates (ToString v).
Proof. unfold ToString. by destruct (converts v). Qed.

Lemma coerce_terminates (v : JsVal) : terminates (coerce v).
Proof.
  unfold coerce. destruct (truthy v); [|done].
  apply terminates_bind; [apply ToString_terminates|done].
Qed.

Lemma mapM_terminates {A B : Type} (f : A → Outcome B) (l : list A) :
  (∀ x, terminates (f x)) → terminates (mapM f l).
Proof.
  intros Hf. induction l as [|x l IH]; [done|].
  change (mapM f (x :: l)) with (f x ≫= λ y, mapM f l ≫= λ ys, mret (y :: ys)).
  apply terminates_bind; [apply Hf|]. intros y _.
  apply terminates_bind; [apply IH|done].
Qed.

Lemma array_join_terminates (sep : string) (xs : list JsVal) :
  terminates (array_join sep xs).
Proof.
  unfold array_join. apply terminates_bind; [|done].
  apply mapM_terminates. intros x. unfold join_element.
  destruct x; try done; apply ToString_terminates.
Qed.

Lemma js_gt_terminates (host : Host) (v : JsVal) (n : Z) :
  terminates (js_gt host v n).
Proof.
  unfold js_gt. apply terminates_bind; [|done].
  unfold ToNumber. destruct v; try done;
    (apply terminates_bind; [apply ToString_terminates|done]).
Qed.

Lemma lookup_own_terminates (cs : Schema) (key : string) :
  terminates (lookup_own cs key).
Proof. unfold lookup_own. by destruct (cs !! "hasOwnProperty"). Qed.

(** The columns are components that the schema holds at keys of the first
    row. *)
Lemma grid_column_fold (cs : Schema) (entries : list (string * JsVal))
    (acc columns : list Component) :
  foldM (grid_column cs) acc entries = Ret columns →
  columns = acc ++ omap (λ entry, cs !! entry.1) entries.
Proof.
  revert acc. induction entries as [|entry entries IH]; intros acc Hfold.
  - simpl in Hfold. inversion Hfold. by rewrite app_nil_r.
  - rewrite foldM_cons in Hfold.
    apply bind_Ret_inv in Hfold as (acc' & Hstep & Hrest).
    unfold grid_column in Hstep.
    apply bind_Ret_inv in Hstep as (column & Hcolumn & Hret).
    apply lookup_own_Ret in Hcolumn as [_ ->].
    apply IH in Hrest as ->. inversion Hret; subst. simpl.
    destruct (cs !! entry.1); [by rewrite <- app_assoc|done].
Qed.

Lemma grid_column_fold_plain (cs : Schema) (entries : list (string * JsVal))
    (acc : list Component) :
  cs !! "hasOwnProperty" = None →
  foldM (grid_column cs) acc entries
  = Ret (acc ++ omap (λ entry, cs !! entry.1) entries).
Proof.
  intros Hown. revert acc. induction entries as [|entry entries IH]; intros acc.
  - simpl. by rewrite app_nil_r.
  - rewrite foldM_cons.
    assert (grid_column cs acc entry
            = Ret (match cs !! entry.1 with
                   | Some column => acc ++ [column]
                   | None => acc
                   end)) as ->.
    { unfold grid_column. by rewrite lookup_own_plain. }
    rewrite bind_Ret, IH. simpl.
    destruct (cs !! entry.1); [by rewrite <- app_assoc|done].
Qed.

Lemma grid_columns_Ret (host : Host) (value : JsVal) (cs : Schema)
    (columns : list Component) (column : Component) :
  grid_columns host value cs = Ret columns → column ∈ columns →
  ∃ entry, entry ∈ each_entries (js_prop value "0")
           ∧ cs !! entry.1 = Some column.
Proof.
  unfold grid_columns. intros H Hin.
  apply bind_Ret_inv in H as (nonempty & _ & H).
  destruct nonempty.
  - apply grid_column_fold in H as ->. simpl in Hin.
    by apply list_elem_of_omap in Hin.
  - inversion H; subst. by apply elem_of_nil in Hin.
Qed.

Lemma grid_columns_terminates (host : Host) (value : JsVal) (cs : Schema) :
  terminates (grid_columns host value cs).
Proof.
  unfold grid_columns. apply terminates_bind; [apply js_gt_terminates|].
  intros [|] _; [|done].
  apply (foldM_terminates (λ _, True)); [|done|done].
  intros columns entry _ _. unfold grid_column.
  apply terminates_bind; [apply lookup_own_terminates|done].
Qed.

(** Without index paths in the schema, a value without nesting has no
    columns. *)
Lemma grid_columns_flat (host : Host) (value : JsVal) (cs : Schema)
    (columns : list Component) :
  no_index_path cs → depth value = 0 →
  grid_columns host value cs = Ret columns → columns = [].
Proof.
  intros Hno Hd Hcols. apply elem_of_nil_inv. intros column Hin.
  destruct (grid_columns_Ret _ _ _ _ _ Hcols Hin) as (entry & Hentry & Hcol).
  destruct (flat_entry_index (js_prop value "0") entry) as [i Hi]; [|done|].
  - pose proof (depth_js_prop value "0"). lia.
  - by rewrite Hi, Hno in Hcol.
Qed.

Section Termination.

Variable host : Host.

Lemma passthrough_terminates (fuel : nat) (data : JsVal) (cs : Schema) (i : nat) :
  no_index_path cs →
  terminates (renderComponentValue host (S fuel) data (nat_to_string i) cs).
Proof.
  intros Hno. rewrite renderComponentValue_S. unfold render_body.
  apply terminates_bind; [apply lookup_own_terminates|].
  intros known [_ ->]%lookup_own_Ret. by rewrite Hno.
Qed.

Lemma recursive_call_terminates (d fuel : nat) (value : JsVal) (key : string)
    (cs : Schema) :
  (d ≠ 0 → bounded host (d - 1)) →
  no_index_path cs → 2 * d + 1 ≤ fuel →
  (d = 0 → ∃ i, key = nat_to_string i) →
  depth (_get value key) ≤ d - 1 →
  terminates (renderComponentValue host fuel value key cs).
Proof.
  intros IH Hno Hfuel Hflat Hdepth. destruct d as [|d].
  - destruct Hflat as [i ->]; [done|].
    destruct fuel as [|fuel]; [lia|]. by apply passthrough_terminates.
  - apply (IH ltac:(done)); [done|done|lia].
Qed.

Lemma render_container_terminates (d fuel : nat) (value : JsVal) (cs : Schema) :
  (d ≠ 0 → bounded host (d - 1)) →
  no_index_path cs → depth value ≤ d → 2 * d + 1 ≤ fuel →
  terminates (render_container (renderComponentValue host fuel) value cs).
Proof.
  intros IH Hno Hd Hfuel. unfold render_container.
  apply terminates_bind; [|by intros [html cs']].
  apply (foldM_terminates (λ st, no_index_path st.2)); [| |done].
  - intros st entry Hentry HP. unfold container_row.
    apply terminates_bind.
    + apply (recursive_call_terminates d); try done.
      * intros ->. apply (flat_entry_index value); [lia|done].
      * pose proof (depth_get value entry.1). lia.
    + intros [sub cs'] _.
      apply terminates_bind; [apply ToString_terminates|done].
  - intros st entry st' HP Hrow. unfold container_row in Hrow.
    apply bind_Ret_inv in Hrow as ([sub cs'] & Hcall & Hret).
    apply bind_Ret_inv in Hret as (subValue & _ & Hret).
    inversion Hret; subst; simpl.
    eapply no_index_path_le; [|exact HP].
    by eapply renderComponentValue_preserves.
Qed.

Lemma grid_row_terminates (d fuel : nat) (columns : list Component)
    (st : string * Schema) (subValue : JsVal) :
  (d ≠ 0 → bounded host (d - 1)) →
  (d = 0 → columns = []) →
  no_index_path st.2 → depth subValue ≤ d - 1 → 2 * d + 1 ≤ fuel →
  terminates (grid_row (renderComponentValue host fuel) columns st subValue).
Proof.
  intros IH Hcols Hno Hd Hfuel. unfold grid_row.
  apply terminates_bind; [|by intros [html cs']].
  apply (foldM_terminates (λ st, no_index_path st.2)); [| |done].
  - intros st1 column Hcolumn HP. unfold grid_cell.
    apply terminates_bind.
    + apply (recursive_call_terminates d); try done.
      * intros ->. rewrite Hcols in Hcolumn by done.
        by apply elem_of_nil in Hcolumn.
      * pose proof (depth_get subValue (c_key column)). lia.
    + intros [cell cs'] _.
      apply terminates_bind; [apply ToString_terminates|done].
  - intros st1 column st1' HP Hcell. unfold grid_cell in Hcell.
    apply bind_Ret_inv in Hcell as ([cell cs'] & Hcall & Hret).
    apply bind_Ret_inv in Hret as (cellValue & _ & Hret).
    inversion Hret; subst; simpl.
    eapply no_index_path_le; [|exact HP].
    by eapply renderComponentValue_preserves.
Qed.

Lemma render_datagrid_terminates (d fuel : nat) (value : JsVal) (cs : Schema) :
  (d ≠ 0 → bounded host (d - 1)) →
  no_index_path cs → depth value ≤ d → 2 * d + 1 ≤ fuel →
  terminates (render_datagrid host (renderComponentValue host fuel) value cs).
Proof.
  intros IH Hno Hd Hfuel. unfold render_datagrid.
  apply terminates_bind; [apply grid_columns_terminates|].
  intros columns Hcolumns.
  apply terminates_bind; [|by intros [html cs']].
  apply (foldM_terminates (λ st, no_index_path st.2)); [| |done].
  - intros st subValue (entry & -> & Hentry)%list_elem_of_fmap HP.
    apply (grid_row_terminates d); try done.
    + intros ->. eapply (grid_columns_flat host value cs); [done|lia|done].
    + pose proof (depth_entry value entry Hentry). lia.
  - intros st subValue st' HP Hrow.
    eapply no_index_path_le; [|exact HP].
    eapply (grid_row_preserves (renderComponentValue host fuel));
      [apply renderComponentValue_preserves|apply schema_le_refl|exact Hrow].
Qed.

Lemma render_single_terminates (d fuel : nat) (c : Component) (value : JsVal)
    (cs : Schema) :
  (d ≠ 0 → bounded host (d - 1)) →
  no_index_path cs → depth value ≤ d → 2 * d + 1 ≤ fuel →
  terminates (render_single host (renderComponentValue host fuel) c value cs).
Proof.
  intros IH Hno Hd Hfuel. unfold render_single.
  apply terminates_bind;
    [|intros [v cs'] _; apply terminates_bind; [apply coerce_terminates|done]].
  unfold dispatch. destruct (kind_of (c_type c)); try done.
  - apply terminates_bind; [apply ToString_terminates|done].
  - by apply (render_container_terminates d).
  - by apply (render_datagrid_terminates d).
  - unfold render_datetime.
    destruct (c_enableDate c); [|done]. by destruct (c_format c).
Qed.

Lemma bounded_step (d : nat) : (d ≠ 0 → bounded host (d - 1)) → bounded host d.
Proof.
  intros IH cs data key fuel Hno Hd Hfuel.
  destruct fuel as [|[|fuel]]; [lia|lia|].
  pose proof (depth_or_empty (_get data key)) as Hor.
  destruct (cs !! "hasOwnProperty") as [shadow|] eqn:Hown;
    [by rewrite render_shadowed|].
  destruct (cs !! key) as [c|] eqn:Hc;
    [|by rewrite renderComponentValue_S, render_body_plain, Hc].
  destruct (c_multiple c) eqn:Hm.
  - rewrite (render_multiple_elements host fuel data key cs c) by done.
    apply terminates_bind;
      [|intros [rendered cs'] _;
        apply terminates_bind; [apply array_join_terminates|done]].
    apply (foldM_terminates (λ st, no_index_path st.2)).
    + intros st x (x0 & -> & (entry & -> & Hentry)%list_elem_of_fmap)
        %list_elem_of_fmap HP.
      unfold single_element.
      apply terminates_bind; [|by intros [sub cs']].
      apply (render_single_terminates d); [done|done| |lia].
      pose proof (depth_or_empty (element_value key entry.2)).
      pose proof (depth_entry _ entry Hentry).
      assert (depth (element_value key entry.2) ≤ depth entry.2)
        by (unfold element_value; destruct (String.eqb key "__proto__");
            simpl; lia).
      lia.
    + intros st x st' HP Hstep. unfold single_element in Hstep.
      apply bind_Ret_inv in Hstep as ([sub cs'] & Hs & Hret).
      inversion Hret; subst; simpl.
      eapply no_index_path_le; [|exact HP].
      eapply render_single_preserves; [|exact Hs].
      apply renderComponentValue_preserves.
    + simpl. eapply no_index_path_le; [by apply schema_le_clear|done].
  - rewrite renderComponentValue_S, render_body_plain by done. rewrite Hc, Hm.
    apply (render_single_terminates d); [done|done|lia|lia].
Qed.

Lemma bounded_all (d : nat) : bounded host d.
Proof.
  induction d as [|d IH]; apply bounded_step; [done|].
  intros _. by replace (S d - 1) with d by lia.
Qed.

End Termination.

(** When no path of the schema is an array index, every call terminates,
    within a number of levels given by the nesting depth of the value. *)
Lemma renderComponentValue_terminates (host : Host) (fuel : nat)
    (data : JsVal) (key : string) (cs : Schema) :
  no_index_path cs → 2 * depth (_get data key) + 3 ≤ fuel →
  terminates (renderComponentValue host fuel data key cs).
Proof. intros Hno Hfuel. by eapply bounded_all. Qed.

(** The hypothesis is needed: a [container] at the path ["0"] whose value is
    a one-character string finds that string again at its index 0, and the
    recursion does not end. *)
Lemma container_over_character_loops (fuel : nat) (data : JsVal)
    (protected : bool) :
  _get data "0" = VStr "a" →
  renderComponentValue plain_host fuel data "0"
    {[ "0" := mk_component "0" "container" false protected ]}
  = OutOfFuel.
Proof.
  revert data. induction fuel as [|fuel IH]; intros data Hget; [done|].
  rewrite renderComponentValue_S, render_body_plain by done. rewrite Hget.
  rewrite lookup_singleton_eq. cbn [c_multiple mk_component].
  unfold render_single, dispatch. cbn [c_type mk_component].
  change (kind_of "container") with KContainer.
  unfold render_container.
  change (each_entries (or_empty (VStr "a"))) with [("0", VStr "a")].
  rewrite foldM_cons.
  assert (container_row (renderComponentValue plain_host fuel)
            (or_empty (VStr "a"))
            (TABLE_OPEN, {[ "0" := mk_component "0" "container" false protected ]})
            ("0", VStr "a") = OutOfFuel) as ->; [|done].
  unfold container_row. cbn [fst snd]. by rewrite IH.
Qed.

(** ** Multiple values (C6) *)

Lemma mapM_Forall2 {A B : Type} (f : A → Outcome B) (l : list A) (l' : list B) :
  Forall2 (λ x y, f x = Ret y) l l' → mapM f l = Ret l'.
Proof.
  induction 1 as [|x y l l' Hxy _ IH]; [reflexivity|].
  change (mapM f (x :: l)) with (f x ≫= λ y, mapM f l ≫= λ ys, mret (y :: ys)).
  by rewrite Hxy, bind_Ret, IH.
Qed.

Lemma mapM_fmap_Forall2 {A B C : Type} (f : A → Outcome C) (g : B → C)
    (l : list A) (l' : list B) :
  Forall2 (λ x y, f x = Ret (g y)) l l' → mapM f l = Ret (g <$> l').
Proof.
  intros H. apply mapM_Forall2. by apply Forall2_fmap_r.
Qed.

(** C6 (counterexample). The recursion made for the elements is not
    bounded for every schema: a [multiple] container at the path ["0"]
    whose list holds a one-character string finds that string again at its
    index 0, and no budget is enough. *)
Lemma multiple_container_unbounded :
  let c := mk_component "0" "container" true false in
  let cs : Schema := {[ "0" := c ]} in
  let data := VObj [("0", VArr [VStr "a"])] in
  cs !! "0" = Some c ∧ c_multiple c = true
  ∧ _get data "0" = VArr [VStr "a"]
  ∧ ∀ fuel, renderComponentValue plain_host fuel data "0" cs = OutOfFuel.
Proof.
  intros c cs data.
  split; [vm_compute; reflexivity|]. split; [reflexivity|].
  split; [vm_compute; reflexivity|].
  intros [|[|fuel]]; [reflexivity|vm_compute; reflexivity|].
  rewrite (render_multiple_unfold plain_host fuel data "0" cs c);
    [|done|vm_compute; reflexivity|vm_compute; reflexivity|reflexivity].
  assert (<["0" := set_multiple false c]> cs
          = {[ "0" := mk_component "0" "container" false false ]}) as ->
    by apply insert_singleton_eq.
  change ((each_entries (or_empty (_get data "0"))).*2) with [VStr "a"].
  rewrite foldM_cons.
  assert (single_element plain_host (renderComponentValue plain_host fuel)
            (set_multiple false c)
            ([], {[ "0" := mk_component "0" "container" false false ]})
            (VStr "a") = OutOfFuel) as ->; [|done].
  unfold single_element, render_single, dispatch. cbn [fst snd].
  change (kind_of (c_type (set_multiple false c))) with KContainer.
  unfold render_container.
  change (each_entries (or_empty (VStr "a"))) with [("0", VStr "a")].
  rewrite foldM_cons.
  assert (container_row (renderComponentValue plain_host fuel)
            (or_empty (VStr "a"))
            (TABLE_OPEN, {[ "0" := mk_component "0" "container" false false ]})
            ("0", VStr "a") = OutOfFuel) as ->; [|done].
  unfold container_row. cbn [fst snd].
  by rewrite (container_over_character_loops fuel _ false).
Qed.

(** C6 (as amended). For a component marked [multiple] whose stored value
    is a list of N elements, on a schema without a path
    ["hasOwnProperty"], the call renders each element as a single value of
    the component with its [multiple] flag off and joins the N results
    with [", "]: a call that returns gives N strings joined.  The
    multiplicity costs exactly one level of recursion: the calls made for
    the elements go straight to the single-value steps, with the rest of
    the budget.  When the component's type makes no recursive call of its
    own, two levels are all the call needs and the result is the join of
    the N single-value renderings.  The call terminates, within a number
    of levels given by the nesting depth of the list, when no path of the
    schema is an array index; it need not otherwise. *)
Theorem multiple_joins_single_values (host : Host) (fuel : nat)
    (data : JsVal) (key : string) (cs : Schema) (c : Component)
    (elems : list JsVal) :
  cs !! key = Some c → c_multiple c = true →
  cs !! "hasOwnProperty" = None →
  own_read data key = true → _get data key = VArr elems →
  renderComponentValue host (S (S fuel)) data key cs
  = ('(rendered, cs') ←
       foldM (single_element host (renderComponentValue host fuel)
                (set_multiple false c))
             ([], <[key := set_multiple false c]> cs) elems;
     joined ← array_join ", " rendered;
     mret ({| rf_label := component_label c; rf_value := VStr joined |}, cs'))
  ∧ (∀ r cs',
       renderComponentValue host (S (S fuel)) data key cs = Ret (r, cs') →
       ∃ rendered : list string,
         length rendered = length elems
         ∧ rf_value r = VStr (String.concat ", " rendered))
  ∧ (flat c = true →
     ∀ rendered : list string,
       Forall2 (λ x s, flat_render host c (or_empty x) = Ret (VStr s))
         elems rendered →
       renderComponentValue host (S (S fuel)) data key cs
       = Ret ({| rf_label := component_label c;
                 rf_value := VStr (String.concat ", " rendered) |},
              <[key := set_multiple false c]> cs))
  ∧ (no_index_path cs → 2 * depth (VArr elems) + 1 ≤ fuel →
     terminates (renderComponentValue host (S (S fuel)) data key cs)).
Proof.
  intros Hc Hm Hown Hread Hget.
  pose proof (render_multiple_own host fuel data key cs c Hread Hown Hc Hm)
    as Heq.
  rewrite Hget in Heq. change (or_empty (VArr elems)) with (VArr elems) in Heq.
  rewrite each_entries_array in Heq.
  split; [exact Heq|]. split; [|split].
  - intros r cs' Hrun. rewrite Heq in Hrun.
    apply bind_Ret_inv in Hrun as ([rendered cs1] & Hfold & Hret).
    apply single_elements_strings in Hfold as (ss & Hlen & Hss).
    simpl in Hss. subst rendered.
    rewrite array_join_strings, bind_Ret in Hret.
    inversion Hret; subst. by exists ss.
  - intros Hf rendered Hall. rewrite Heq.
    rewrite (single_elements_flat host _ (set_multiple false c)) by done.
    rewrite (mapM_fmap_Forall2 _ VStr elems rendered) by done.
    cbn [mret Outcome_ret mbind Outcome_bind app].
    by rewrite array_join_strings.
  - intros Hno Hfuel. apply renderComponentValue_terminates; [done|].
    rewrite Hget. lia.
Qed.

Lemma multiple_joins_single_values_witness :
  let c := mk_component "tags" "textfield" true false in
  let cs : Schema := {[ "tags" := c ]} in
  let data := VObj [("tags", VArr [VStr "a"; VNum 7; VNull])] in
  (cs !! "tags" = Some c ∧ c_multiple c = true
   ∧ cs !! "hasOwnProperty" = None ∧ own_read data "tags" = true
   ∧ _get data "tags" = VArr [VStr "a"; VNum 7; VNull])
  ∧ renderComponentValue plain_host 2 data "tags" cs
    = Ret ({| rf_label := "tags"; rf_value := VStr "a, 7, " |},
           <["tags" := set_multiple false c]> cs).
Proof.
  intros c cs data.
  assert (cs !! "tags" = Some c) as Hc by (vm_compute; reflexivity).
  assert (c_multiple c = true) as Hm by reflexivity.
  assert (cs !! "hasOwnProperty" = None) as Hown by (vm_compute; reflexivity).
  assert (own_read data "tags" = true) as Hread by (vm_compute; reflexivity).
  assert (_get data "tags" = VArr [VStr "a"; VNum 7; VNull]) as Hget
    by (vm_compute; reflexivity).
  split; [done|].
  apply (proj1 (proj2 (proj2 (multiple_joins_single_values plain_host 0 data
                                "tags" cs c _ Hc Hm Hown Hread Hget)))
           eq_refl ["a"; "7"; ""]).
  repeat constructor.
Defined.

(** ** Protected components (C1) *)







(** ** Values absent from the submission (C7) *)

(** C7 (counterexample). The submission has nothing at [secret], and the
    [password] component renders its mask, not the empty string. *)
Lemma absent_password_not_empty :
  let cs : Schema := {[ "secret" := mk_component "secret" "password" false false ]} in
  _get (VObj []) "secret" = VUndef
  ∧ renderComponentValue plain_host 1 (VObj []) "secret" cs
    = Ret ({| rf_label := "secret"; rf_value := VStr PASSWORD_MASK |}, cs)
  ∧ VStr PASSWORD_MASK ≠ VStr "".
Proof.
  intros cs. split; [reflexivity|]. split; [vm_compute; reflexivity|].
  intros Heq. vm_compute in Heq. discriminate.
Qed.

Lemma coerce_returns (v : JsVal) :
  converts v = true → ∃ s, coerce v = Ret (VStr s).
Proof.
  intros Hv. unfold coerce, ToString. rewrite Hv.
  destruct (truthy v); eauto.
Qed.

Lemma lookup_option_converts (values : list OptionEntry) (value cur : JsVal) :
  forallb (λ o, converts (o_label o)) values = true → converts cur = true →
  converts (lookup_option values value cur) = true.
Proof.
  intros Hall Hcur. unfold lookup_option.
  destruct (List.find _ values) as [o|] eqn:Hfind; [|done].
  apply find_some in Hfind as [Hin _].
  rewrite forallb_forall in Hall. by apply Hall.
Qed.

(** On the empty string the dispatch makes no call and returns, unless the
    format of a date is missing; the value it gives has a string form when
    the labels have one. *)
Lemma dispatch_empty_returns (host : Host)
    (self : JsVal → string → Schema → Outcome (RenderedField * Schema))
    (c : Component) (cs : Schema) :
  format_missing c = false → labels_convert c = true →
  ∃ v, dispatch host self c (VStr "") cs = Ret (v, cs) ∧ converts v = true.
Proof.
  unfold format_missing, labels_convert, dispatch, render_datetime.
  destruct (kind_of (c_type c)); intros Hf Hl;
    try (eexists; split; reflexivity).
  - destruct (c_enableDate c).
    + destruct (c_format c); [|done].
      eexists. split; [reflexivity|]. by destruct (String.eqb _ "").
    + eexists. split; [reflexivity|]. simpl. by destruct (String.eqb _ "").
  - eexists. split; [reflexivity|]. by apply lookup_option_converts.
Qed.

Lemma lookup_option_unmatched (values : list OptionEntry) (value cur : JsVal) :
  forallb (λ o, negb (strict_eq (o_value o) value)) values = true →
  lookup_option values value cur = cur.
Proof.
  unfold lookup_option. induction values as [|o values IH]; [done|].
  simpl. intros [Ho Hrest]%andb_prop.
  destruct (strict_eq (o_value o) value); [done|]. by apply IH.
Qed.

Lemma dispatch_empty (host : Host)
    (self : JsVal → string → Schema → Outcome (RenderedField * Schema))
    (c : Component) (cs : Schema) :
  renders_empty c = true →
  dispatch host self c (VStr "") cs = Ret (VStr "", cs).
Proof.
  unfold renders_empty, dispatch, render_datetime.
  intros [_ Hk]%andb_prop.
  destruct (kind_of (c_type c)); try done.
  - apply andb_prop in Hk as [Hd Ht].
    destruct (c_enableDate c), (c_enableTime c); done.
  - by rewrite lookup_option_unmatched.
Qed.

(** C7 (as amended). For a field path absent from the submission data, on
    a schema without a path ["hasOwnProperty"], the call raises no error,
    unless the component is a single-value [datetime] with [enableDate] and
    no [format], or an option label has no string form; and the value is
    the empty string when the path is not in the schema, when the component
    is marked [multiple], or when it is not protected and its type adds
    nothing to an empty value ([address], an option type without an option
    for the empty value, a [datetime] without date and time, a type without
    special handling).  The other components render their mask or their
    markup.  Absent means that the read, which stays on own properties,
    finds nothing. *)
Theorem absent_value_rendering (host : Host) (fuel : nat)
    (data : JsVal) (key : string) (cs : Schema) :
  own_read data key = true → _get data key = VUndef →
  cs !! "hasOwnProperty" = None →
  (cs !! key = None →
   renderComponentValue host (S fuel) data key cs
   = Ret ({| rf_label := key; rf_value := VStr "" |}, cs))
  ∧ (∀ c, cs !! key = Some c →
       let empty := {| rf_label := component_label c; rf_value := VStr "" |} in
       (c_multiple c = true
        ∨ (format_missing c = false ∧ labels_convert c = true) →
        returns (renderComponentValue host (S fuel) data key cs))
       ∧ (c_multiple c = true →
          renderComponentValue host (S fuel) data key cs
          = Ret (empty, <[key := set_multiple false c]> cs))
       ∧ (c_multiple c = false → renders_empty c = true →
          renderComponentValue host (S fuel) data key cs = Ret (empty, cs))).
Proof.
  intros _ Hget Hown. split.
  - intros Hc. rewrite renderComponentValue_S, render_body_plain by done.
    by rewrite Hc, Hget.
  - intros c Hc empty.
    assert (c_multiple c = true →
            renderComponentValue host (S fuel) data key cs
            = Ret (empty, <[key := set_multiple false c]> cs)) as Hmul.
    { intros Hm. rewrite renderComponentValue_S, render_body_plain by done.
      by rewrite Hc, Hget, Hm. }
    split; [|split; [exact Hmul|]].
    + intros Hor. destruct (c_multiple c) eqn:Hm.
      * eexists. by apply Hmul.
      * destruct Hor as [?|[Hf Hl]]; [done|].
        rewrite renderComponentValue_S, render_body_plain by done.
        unfold render_single. rewrite Hc, Hget, Hm.
        destruct (dispatch_empty_returns host
                    (renderComponentValue host fuel) c cs Hf Hl)
          as (v & Hv & Hconv).
        change (or_empty VUndef) with (VStr ""). rewrite Hv, bind_Ret.
        destruct (coerce_returns (if c_protected c then VStr PROTECTED_MASK
                                  else v)) as [s' Hs'].
        { by destruct (c_protected c). }
        rewrite Hs'. eexists. reflexivity.
    + intros Hm He. rewrite renderComponentValue_S, render_body_plain by done.
      unfold render_single. rewrite Hc, Hget, Hm.
      change (or_empty VUndef) with (VStr ""). rewrite dispatch_empty by done.
      apply andb_prop in He as [Hp _]. apply negb_true_iff in Hp.
      by rewrite bind_Ret, Hp.
Qed.

Lemma absent_value_rendering_witness :
  let c := mk_component "city" "address" false false in
  let cs : Schema := {[ "city" := c ]} in
  let data := VObj [("name", VStr "Jane")] in
  (own_read data "city" = true ∧ _get data "city" = VUndef
   ∧ cs !! "hasOwnProperty" = None
   ∧ cs !! "city" = Some c ∧ c_multiple c = false ∧ renders_empty c = true)
  ∧ renderComponentValue plain_host 1 data "city" cs
    = Ret ({| rf_label := "city"; rf_value := VStr "" |}, cs).
Proof.
  intros c cs data.
  assert (cs !! "city" = Some c) as Hc by (vm_compute; reflexivity).
  assert (cs !! "hasOwnProperty" = None) as Hown by (vm_compute; reflexivity).
  assert (own_read data "city" = true) as Hread by (vm_compute; reflexivity).
  split; [done|].
  exact (proj2 (proj2 (proj2 (absent_value_rendering plain_host 0 data "city"
                                cs Hread eq_refl Hown)
                         c Hc)) eq_refl eq_refl).
Defined.

(** ** Data grids without rows (C9) *)

Lemma render_datagrid_empty (host : Host)
    (self : JsVal → string → Schema → Outcome (RenderedField * Schema))
    (value : JsVal) (cs : Schema) :
  value = VArr [] ∨ value = VStr "" →
  grid_columns host value cs = Ret []
  ∧ render_datagrid host self value cs
    = Ret (VStr (TABLE_OPEN +:+ "<tr>" +:+ "</tr>" +:+ "</table>"), cs).
Proof. intros [->| ->]; split; reflexivity. Qed.

(** C9 (counterexample). The output of an empty data grid does not always
    hold a header row: for a protected data grid it is the masked constant,
    for one marked [multiple] the empty string.  And a schema with a path
    ["hasOwnProperty"] makes the call raise an error. *)
Lemma protected_empty_datagrid_masked :
  let table := VStr (TABLE_OPEN +:+ "<tr>" +:+ "</tr>" +:+ "</table>") in
  let data := VObj [("rows", VArr [])] in
  let render c :=
    renderComponentValue plain_host 1 data "rows" {[ "rows" := c ]} in
  let protected := mk_component "rows" "datagrid" false true in
  let multiple := mk_component "rows" "datagrid" true false in
  let plain := mk_component "rows" "datagrid" false false in
  _get data "rows" = VArr []
  ∧ render protected
    = Ret ({| rf_label := "rows"; rf_value := VStr PROTECTED_MASK |},
           {[ "rows" := protected ]})
  ∧ render multiple
    = Ret ({| rf_label := "rows"; rf_value := VStr "" |},
           {[ "rows" := plain ]})
  ∧ VStr PROTECTED_MASK ≠ table ∧ VStr "" ≠ table
  ∧ renderComponentValue plain_host 1 data "rows"
      {[ "rows" := plain; "hasOwnProperty" := plain ]}
    = Throw.
Proof.
  intros table data render protected multiple plain.
  split; [vm_compute; reflexivity|]. split; [vm_compute; reflexivity|].
  split; [vm_compute; reflexivity|]. split; [|split].
  - intros Heq. vm_compute in Heq. discriminate.
  - intros Heq. vm_compute in Heq. discriminate.
  - vm_compute; reflexivity.
Qed.

(** C9 (as amended). Rendering a [datagrid] whose stored value is the
    empty list, or is missing, on a schema without a path
    ["hasOwnProperty"], raises no error: the call returns, whatever the
    flags of the component; the column set taken from the first row is
    empty; the table built has an empty header row and no data row.  This
    table is the value returned for a component that is neither [multiple]
    nor protected; a protected one returns the masked constant, one marked
    [multiple] the empty string.  Missing means that the read, which stays
    on own properties, finds nothing or a falsy value. *)
Theorem empty_datagrid_rendering (host : Host) (fuel : nat)
    (data : JsVal) (key : string) (cs : Schema) (c : Component) :
  cs !! key = Some c → c_type c = "datagrid" →
  cs !! "hasOwnProperty" = None → own_read data key = true →
  _get data key = VArr [] ∨ truthy (_get data key) = false →
  let value := or_empty (_get data key) in
  let table := VStr (TABLE_OPEN +:+ "<tr>" +:+ "</tr>" +:+ "</table>") in
  let rendered v := {| rf_label := component_label c; rf_value := v |} in
  returns (renderComponentValue host (S fuel) data key cs)
  ∧ grid_columns host value cs = Ret []
  ∧ render_datagrid host (renderComponentValue host fuel) value cs
    = Ret (table, cs)
  ∧ (c_multiple c = false → c_protected c = false →
     renderComponentValue host (S fuel) data key cs = Ret (rendered table, cs))
  ∧ (c_multiple c = false → c_protected c = true →
     renderComponentValue host (S fuel) data key cs
     = Ret (rendered (VStr PROTECTED_MASK), cs))
  ∧ (c_multiple c = true →
     renderComponentValue host (S fuel) data key cs
     = Ret (rendered (VStr ""), <[key := set_multiple false c]> cs)).
Proof.
  intros Hc Ht Hown _ Hval value table rendered.
  assert (value = VArr [] ∨ value = VStr "") as Hvalue.
  { unfold value, or_empty. destruct Hval as [->| ->]; auto. }
  destruct (render_datagrid_empty host (renderComponentValue host fuel)
              value cs Hvalue) as [Hcols Hgrid].
  assert (dispatch host (renderComponentValue host fuel) c value cs
          = Ret (table, cs)) as Hd.
  { unfold dispatch. by rewrite Ht. }
  assert (c_multiple c = false →
          renderComponentValue host (S fuel) data key cs
          = Ret (rendered (if c_protected c then VStr PROTECTED_MASK
                           else table), cs)) as Hsingle.
  { intros Hm. rewrite renderComponentValue_S, render_body_plain by done.
    unfold render_single. fold value. rewrite Hc, Hm, Hd.
    rewrite bind_Ret. by destruct (c_protected c). }
  assert (c_multiple c = true →
          renderComponentValue host (S fuel) data key cs
          = Ret (rendered (VStr ""), <[key := set_multiple false c]> cs))
    as Hmultiple.
  { intros Hm. rewrite renderComponentValue_S, render_body_plain by done.
    fold value. rewrite Hc, Hm. by destruct Hvalue as [->| ->]. }
  split; [|split; [done|split; [done|split; [|split; [|done]]]]].
  - destruct (c_multiple c) eqn:Hm; eexists; [by apply Hmultiple|].
    by apply Hsingle.
  - intros Hm Hp. rewrite Hsingle by done. by rewrite Hp.
  - intros Hm Hp. rewrite Hsingle by done. by rewrite Hp.
Qed.

Lemma empty_datagrid_rendering_witness :
  let c := mk_component "rows" "datagrid" false false in
  let cs : Schema := {[ "rows" := c ]} in
  let data := VObj [("rows", VArr [])] in
  (cs !! "rows" = Some c ∧ c_type c = "datagrid"
   ∧ cs !! "hasOwnProperty" = None ∧ own_read data "rows" = true
   ∧ _get data "rows" = VArr [])
  ∧ renderComponentValue plain_host 1 data "rows" cs
    = Ret ({| rf_label := "rows";
              rf_value :=
                VStr (TABLE_OPEN +:+ "<tr>" +:+ "</tr>" +:+ "</table>") |}, cs).
Proof.
  intros c cs data.
  assert (cs !! "rows" = Some c) as Hc by (vm_compute; reflexivity).
  assert (cs !! "hasOwnProperty" = None) as Hown by (vm_compute; reflexivity).
  assert (own_read data "rows" = true) as Hread by (vm_compute; reflexivity).
  split; [done|].
  exact (proj1 (proj2 (proj2 (proj2 (empty_datagrid_rendering plain_host 0 data
                                       "rows" cs c Hc eq_refl Hown Hread
                                       (or_introl eq_refl)))))
           eq_refl eq_refl).
Defined.

(** ** Option lists (C8) *)

Lemma or_empty_str (s : string) : or_empty (VStr s) = VStr s.
Proof.
  unfold or_empty. simpl. by destruct (String.eqb_spec s "") as [->|_].
Qed.

(** C8 (counterexample). The stored value is the number 0 and the option
    list has an entry for the value 0, but the code compares the options
    with the value after [if (!value) value = ''], so the entry is not found
    and the rendered value is the empty string, not the label.  And a value
    that matches no entry does not pass through unchanged when it is not a
    string: the object stored by a [selectboxes] is rendered by its
    [toString]. *)
Lemma option_zero_not_labelled :
  let zero := {| o_value := VNum 0; o_label := VStr "Zero" |} in
  let c := mk_options "n" "radio" [zero] in
  let data := VObj [("n", VNum 0)] in
  let boxes := mk_options "n" "selectboxes" [zero] in
  let checked := VObj [("n", VObj [("a", VBool true)])] in
  List.find (λ o, strict_eq (o_value o) (_get data "n")) (option_list c)
  = Some zero
  ∧ renderComponentValue plain_host 1 data "n" {[ "n" := c ]}
    = Ret ({| rf_label := "n"; rf_value := VStr "" |}, {[ "n" := c ]})
  ∧ VStr "" ≠ o_label zero
  ∧ renderComponentValue plain_host 1 checked "n" {[ "n" := boxes ]}
    = Ret ({| rf_label := "n"; rf_value := VStr "[object Object]" |},
           {[ "n" := boxes ]}).
Proof.
  intros zero c data boxes checked. split; [reflexivity|].
  split; [vm_compute; reflexivity|]. split; [done|].
  vm_compute; reflexivity.
Qed.

(** C8 (as amended). For a component of the option family that is neither
    [multiple] nor protected, on a schema without a path
    ["hasOwnProperty"], the option list is the component's own [values], or
    [data.values] when it has no [values]; it is searched for the first
    entry whose value is strictly equal to the stored value, a falsy stored
    value counting as the empty string.  The rendered value is the label of
    that entry, and the stored value when there is none, each in its string
    form (the empty string when falsy; the call throws when it has none): a
    label that is a string is rendered as it is, and so is an unmatched
    stored string.  The stored value is the one read from own
    properties. *)
Theorem option_rendering (host : Host) (fuel : nat)
    (data : JsVal) (key : string) (cs : Schema) (c : Component) :
  cs !! key = Some c →
  c_type c = "radio" ∨ c_type c = "select" ∨ c_type c = "selectboxes" →
  c_multiple c = false → c_protected c = false →
  cs !! "hasOwnProperty" = None → own_read data key = true →
  let value := or_empty (_get data key) in
  let found := List.find (λ o, strict_eq (o_value o) value) (option_list c) in
  let rendered v := Ret ({| rf_label := component_label c; rf_value := v |}, cs) in
  option_list c = default (default [] (c_data_values c)) (c_values c)
  ∧ renderComponentValue host (S fuel) data key cs
    = (v ← coerce (from_option o_label value found); rendered v)
  ∧ (∀ o label, found = Some o → o_label o = VStr label →
       renderComponentValue host (S fuel) data key cs = rendered (VStr label))
  ∧ (∀ s, found = None → _get data key = VStr s →
       renderComponentValue host (S fuel) data key cs = rendered (VStr s)).
Proof.
  intros Hc Ht Hm Hp Hown _ value found rendered.
  assert (kind_of (c_type c) = KOptions) as Hk
    by (by destruct Ht as [->|[->| ->]]).
  assert (renderComponentValue host (S fuel) data key cs
          = (v ← coerce (from_option o_label value found); rendered v)) as Heq.
  { rewrite renderComponentValue_S, render_body_plain by done.
    unfold render_single, dispatch.
    fold value. rewrite Hc, Hm, Hk, bind_Ret, Hp.
    unfold lookup_option. fold found. by destruct found. }
  split; [by unfold option_list; destruct (c_values c), (c_data_values c)|].
  split; [exact Heq|]. split.
  - intros o label Hfound Hlabel. rewrite Heq, Hfound. simpl.
    by rewrite Hlabel, coerce_str.
  - intros s Hfound Hs. rewrite Heq, Hfound. simpl.
    unfold value. by rewrite Hs, or_empty_str, coerce_str.
Qed.

Lemma option_rendering_witness :
  let red := {| o_value := VStr "r"; o_label := VStr "Red" |} in
  let blue := {| o_value := VStr "b"; o_label := VStr "Blue" |} in
  let c := mk_options "color" "select" [red; blue] in
  let cs : Schema := {[ "color" := c ]} in
  (cs !! "color" = Some c ∧ c_type c = "select"
   ∧ cs !! "hasOwnProperty" = None
   ∧ own_read (VObj [("color", VStr "r")]) "color" = true
   ∧ own_read (VObj [("color", VStr "g")]) "color" = true)
  ∧ renderComponentValue plain_host 1 (VObj [("color", VStr "r")]) "color" cs
    = Ret ({| rf_label := "color"; rf_value := VStr "Red" |}, cs)
  ∧ renderComponentValue plain_host 1 (VObj [("color", VStr "g")]) "color" cs
    = Ret ({| rf_label := "color"; rf_value := VStr "g" |}, cs).
Proof.
  intros red blue c cs.
  assert (cs !! "color" = Some c) as Hc by (vm_compute; reflexivity).
  assert (cs !! "hasOwnProperty" = None) as Hown by (vm_compute; reflexivity).
  assert (own_read (VObj [("color", VStr "r")]) "color" = true) as Hr
    by (vm_compute; reflexivity).
  assert (own_read (VObj [("color", VStr "g")]) "color" = true) as Hg
    by (vm_compute; reflexivity).
  split; [done|]. split.
  - exact (proj1 (proj2 (proj2 (option_rendering plain_host 0
                                  (VObj [("color", VStr "r")]) "color" cs c Hc
                                  (or_intror (or_introl eq_refl))
                                  eq_refl eq_refl Hown Hr)))
             red "Red" eq_refl eq_refl).
  - exact (proj2 (proj2 (proj2 (option_rendering plain_host 0
                                  (VObj [("color", VStr "g")]) "color" cs c Hc
                                  (or_intror (or_introl eq_refl))
                                  eq_refl eq_refl Hown Hg)))
             "g" eq_refl eq_refl).
Defined.

(** ** Own properties *)

Lemma assoc_get_set_eq (k : string) (v : JsVal) (props : list (string * JsVal)) :
  assoc_get k (assoc_set k v props) = Some v.
Proof.
  induction props as [|[k' v'] props IH]; simpl.
  - by rewrite String.eqb_refl.
  - destruct (String.eqb k' k) eqn:Hk; simpl; by rewrite Hk.
Qed.

Lemma assoc_set_id (k : string) (v : JsVal) (props : list (string * JsVal)) :
  assoc_get k props = Some v → assoc_set k v props = props.
Proof.
  induction props as [|[k' v'] props IH]; simpl; [done|].
  destruct (String.eqb k' k); [by intros [= ->]|].
  intros Hget. by rewrite IH.
Qed.

Lemma assoc_delete_absent (k : string) (props : list (string * JsVal)) :
  assoc_get k props = None → assoc_delete k props = props.
Proof.
  unfold assoc_delete. induction props as [|[k' v'] props IH]; simpl; [done|].
  destruct (String.eqb k' k); [done|]. intros Hget. simpl. by rewrite IH.
Qed.

Lemma own_field_object (ks : list string) (obj : JsVal) (d : list (string * JsVal)) :
  own_field ks obj = Some (VObj d) → ∃ props, obj = VObj props.
Proof.
  destruct ks as [|k ks]; simpl.
  - intros [= ->]. eauto.
  - destruct obj; try done. eauto.
Qed.

Lemma own_field_app (ks rest : list string) (obj parent : JsVal) :
  own_field ks obj = Some parent →
  own_field (ks ++ rest) obj = own_field rest parent.
Proof.
  revert obj. induction ks as [|k ks IH]; intros obj; simpl.
  - by intros [= ->].
  - destruct obj; try done.
    destruct (assoc_get k props) as [child|]; [|done]. simpl. apply IH.
Qed.

(** [_.get] reads what the walk through own properties finds. *)
Lemma get_walk_own (ks : list string) (k : string) (obj : JsVal)
    (d : list (string * JsVal)) :
  own_field ks obj = Some (VObj d) →
  get_walk (ks ++ [k]) obj = default VUndef (assoc_get k d).
Proof.
  revert obj. induction ks as [|k1 ks IH]; intros obj; simpl.
  - by intros [= ->].
  - destruct obj; try done. simpl.
    destruct (assoc_get k1 props) as [child|]; [|done]. simpl. apply IH.
Qed.

Lemma set_walk_step (key next : string) (rest : list string)
    (value nested : JsVal) :
  set_walk (key :: next :: rest) value nested
  = if isObject nested then
      let child := js_prop nested key in
      if is_nullish child then
        js_put nested key
          (set_walk (next :: rest) value
             (if isIndex next then VArr [] else VObj []))
      else if isObject child
           then js_put nested key (set_walk (next :: rest) value child)
           else nested
    else nested.
Proof. reflexivity. Qed.

Lemma own_field_cons (k : string) (rest : list string)
    (props : list (string * JsVal)) :
  own_field (k :: rest) (VObj props) = assoc_get k props ≫= own_field rest.
Proof. reflexivity. Qed.

(** An assignment stores the property, unless it is an assignment to
    [__proto__] on an object without a property of that name. *)
Lemma obj_put_stores (k : string) (v : JsVal) (props : list (string * JsVal)) :
  k ≠ "__proto__" ∨ is_Some (assoc_get k props) →
  obj_put k v props = assoc_set k v props.
Proof.
  intros Hk. unfold obj_put.
  destruct (String.eqb_spec k "__proto__") as [->|Hne]; [|done].
  destruct Hk as [?|Hsome]; [done|].
  by rewrite bool_decide_eq_true_2.
Qed.

Lemma obj_put_proto (v : JsVal) (props : list (string * JsVal)) :
  assoc_get "__proto__" props = None → obj_put "__proto__" v props = props.
Proof.
  intros Hnone. unfold obj_put. rewrite Hnone.
  by rewrite bool_decide_eq_false_2 by (by intros [? ?]).
Qed.

(** A path none of whose segments is missing up to the last: [_.set]
    assigns the last segment in the enclosing object, creating the field
    when it is not there. *)
Lemma set_walk_own (ks : list string) (k : string) (v : JsVal) (obj : JsVal)
    (d : list (string * JsVal)) :
  own_field ks obj = Some (VObj d) →
  k ≠ "__proto__" ∨ is_Some (assoc_get k d) →
  own_field (ks ++ [k]) (set_walk (ks ++ [k]) v obj) = Some v.
Proof.
  intros Hown Hk. revert obj Hown.
  induction ks as [|k1 ks IH]; intros obj Hown.
  - simpl in Hown. injection Hown as ->. simpl.
    by rewrite obj_put_stores, assoc_get_set_eq.
  - destruct obj as [| | | | | |props]; try done. simpl in Hown.
    destruct (assoc_get k1 props) as [child|] eqn:Hchild; [|done].
    simpl in Hown. specialize (IH child Hown).
    destruct (own_field_object _ _ _ Hown) as [props' ->].
    change ((k1 :: ks) ++ [k]) with (k1 :: (ks ++ [k])).
    destruct (ks ++ [k]) as [|k2 rest] eqn:Hrest; [by destruct ks|].
    rewrite set_walk_step. cbv beta iota zeta delta [isObject js_prop].
    rewrite Hchild.
    cbv beta iota zeta delta [default from_option id is_nullish isObject js_put].
    rewrite obj_put_stores by (right; by rewrite Hchild).
    rewrite own_field_cons, assoc_get_set_eq. exact IH.
Qed.

(** ** Redaction rules *)

Lemma delete_walk_step (k k2 : string) (rest : list string)
    (props : list (string * JsVal)) :
  delete_walk (k :: k2 :: rest) (VObj props)
  = match assoc_get k props with
    | Some child => VObj (assoc_set k (delete_walk (k2 :: rest) child) props)
    | None => VObj props
    end.
Proof. reflexivity. Qed.

Lemma delete_walk_absent (path : list string) (obj : JsVal) :
  own_field path obj = None → delete_walk path obj = obj.
Proof.
  revert obj. induction path as [|k rest IH]; intros obj; [done|].
  destruct obj as [| | | | | |props]; try (by destruct rest).
  rewrite own_field_cons. intros Hown.
  destruct (assoc_get k props) as [child|] eqn:Hchild.
  - simpl in Hown. destruct rest as [|k2 rest]; [done|].
    rewrite delete_walk_step, Hchild, (IH child Hown).
    by rewrite assoc_set_id.
  - destruct rest as [|k2 rest].
    + simpl. by rewrite assoc_delete_absent.
    + by rewrite delete_walk_step, Hchild.
Qed.

Lemma toPath_data (path : string) :
  toPath ("data." +:+ path) = "data" :: toPath path.
Proof. reflexivity. Qed.

(** On a submission that has no property literally named by the dotted
    path, [_.get] and [_.set] both follow the segments of the path. *)
Lemma get_path_data (path : string) (props : list (string * JsVal)) :
  assoc_get ("data." +:+ path) props = None →
  get_path (VObj props) ("data." +:+ path) = "data" :: toPath path.
Proof.
  intros Hnone. unfold get_path, js_in. rewrite Hnone.
  rewrite bool_decide_eq_false_2 by (by intros [? ?]). apply toPath_data.
Qed.

Lemma set_path_data (path : string) (props : list (string * JsVal)) :
  assoc_get ("data." +:+ path) props = None →
  set_path (VObj props) ("data." +:+ path) = "data" :: toPath path.
Proof.
  intros Hnone. unfold set_path, isKey, js_in, js_prop. rewrite Hnone.
  rewrite bool_decide_eq_false_2 by (by intros [? ?]). apply toPath_data.
Qed.

Lemma get_data_field (path : string) (props d : list (string * JsVal))
    (ks : list string) (k : string) :
  assoc_get ("data." +:+ path) props = None →
  "data" :: toPath path = ks ++ [k] →
  own_field ks (VObj props) = Some (VObj d) →
  _get (VObj props) ("data." +:+ path) = default VUndef (assoc_get k d).
Proof.
  intros Hnone Hpath Hown. unfold _get.
  rewrite get_path_data by done. cbn [is_nullish].
  rewrite Hpath. destruct (ks ++ [k]) eqn:Hsegs; [by destruct ks|].
  rewrite <- Hsegs. by apply get_walk_own.
Qed.

Lemma set_data_field (path : string) (props d : list (string * JsVal))
    (ks : list string) (k : string) (v : JsVal) :
  assoc_get ("data." +:+ path) props = None →
  "data" :: toPath path = ks ++ [k] →
  own_field ks (VObj props) = Some (VObj d) →
  k ≠ "__proto__" ∨ is_Some (assoc_get k d) →
  own_field (ks ++ [k]) (_set (VObj props) ("data." +:+ path) v) = Some v.
Proof.
  intros Hnone Hpath Hown Hk. unfold _set.
  rewrite set_path_data by done. cbn [is_nullish].
  rewrite Hpath. by eapply set_walk_own.
Qed.

Lemma mask_value_string (host : Host) (s : string) :
  mask_value host (VStr s)
  = Ret (VStr (if (String.length s <? 25)%nat then "" else "YES")).
Proof.
  unfold mask_value, js_lt. simpl.
  destruct (String.eqb_spec s "") as [->|_]; [done|]. simpl.
  destruct (Z.ltb_spec (Z.of_nat (String.length s)) 25),
           (Nat.ltb_spec (String.length s) 25); (done || lia).
Qed.

Lemma mask_value_absent (host : Host) :
  mask_value host VUndef = Ret (VStr "").
Proof. reflexivity. Qed.

Lemma list_snoc_exists {A : Type} (x : A) (l : list A) :
  ∃ ks k, x :: l = ks ++ [k].
Proof.
  revert x. induction l as [|y l IH]; intros x.
  - by exists [], x.
  - destruct (IH y) as (ks & k & ->). by exists (x :: ks), k.
Qed.

Lemma own_field_snoc_inv (ks : list string) (k : string) (obj v : JsVal) :
  own_field (ks ++ [k]) obj = Some v →
  ∃ d, own_field ks obj = Some (VObj d) ∧ assoc_get k d = Some v.
Proof.
  revert obj. induction ks as [|k1 ks IH]; intros obj.
  - destruct obj as [| | | | | |props]; try done. simpl.
    destruct (assoc_get k props) as [v'|] eqn:Hk; [|done].
    simpl. intros [= ->]. eauto.
  - destruct obj as [| | | | | |props]; try done.
    change ((k1 :: ks) ++ [k]) with (k1 :: (ks ++ [k])).
    rewrite !own_field_cons.
    destruct (assoc_get k1 props) as [child|]; [|done]. simpl. apply IH.
Qed.

Lemma component_rules_plain (action path : string) (c : Component) :
  c_protected c = false →
  component_rules action (c, path)
  = if String.eqb (c_type c) "signature" && String.eqb action "index"
    then [MaskRule ("data." +:+ path)] else [].
Proof. intros Hp. unfold component_rules. simpl. by rewrite Hp. Qed.

Lemma computeRules_display (Form : Type)
    (eachComponent : Form → list (Component * string)) (form : Form) :
  Forall (λ visit, c_protected visit.1 = false) (eachComponent form) →
  computeRules Form eachComponent form "display" = [].
Proof.
  unfold computeRules. induction 1 as [|[c path] visits Hp _ IH]; [done|].
  simpl in *. rewrite component_rules_plain by done.
  by rewrite andb_false_r.
Qed.

(** ** Signatures in the index (C5) *)

(** C5 (counterexample). A component of type [signature] that is protected
    gets the delete rule, under the action [index] too: no mask rule is
    appended for it. *)
Lemma protected_signature_not_masked :
  let c := mk_component "sig" "signature" false true in
  c_type c = "signature"
  ∧ component_rules "index" (c, "sig") = [DeleteRule "data.sig"]
  ∧ MaskRule "data.sig" ∉ component_rules "index" (c, "sig").
Proof.
  intros c. split; [done|]. split; [done|].
  intros Hin. apply list_elem_of_singleton in Hin. discriminate.
Qed.

(** C5 (as amended). For a component of type [signature] that is not
    protected, the mask rule is appended exactly when the action is
    ["index"].  Applied to a submission that stores a string at the path
    (a path in the dotted syntax; the submission has no property named by
    the whole dotted path), the rule returns and overwrites the string
    with the empty string when its length is below 25 and with ["YES"]
    otherwise.  Under any other action, ["display"] among them, the
    component adds no rule of its own: what happens to its value then comes
    from the delete rules of protected components, and a form without
    protected components leaves the submissions untouched under
    ["display"]. *)
Theorem signature_mask_rule (host : Host) (action path : string)
    (c : Component) :
  c_type c = "signature" → c_protected c = false → dotted path = true →
  (MaskRule ("data." +:+ path) ∈ component_rules action (c, path)
   ↔ action = "index")
  ∧ component_rules action (c, path)
    = (if String.eqb action "index" then [MaskRule ("data." +:+ path)] else [])
  ∧ (∀ props s,
       assoc_get ("data." +:+ path) props = None →
       own_field ("data" :: toPath path) (VObj props) = Some (VStr s) →
       returns (callRule host (MaskRule ("data." +:+ path)) (VObj props))
       ∧ own_field ("data" :: toPath path)
           (modifyField host (MaskRule ("data." +:+ path)) (VObj props))
         = Some (VStr (if (String.length s <? 25)%nat then "" else "YES")))
  ∧ (∀ (Form : Type) (eachComponent : Form → list (Component * string))
       (form : Form) (submissions : JsVal),
       Forall (λ visit, c_protected visit.1 = false) (eachComponent form) →
       removeProtectedFields host Form eachComponent form "display" submissions
       = Ret (as_array submissions)).
Proof.
  intros Ht Hp _.
  assert (component_rules action (c, path)
          = (if String.eqb action "index"
             then [MaskRule ("data." +:+ path)] else [])) as Hrules.
  { rewrite component_rules_plain by done. by rewrite Ht. }
  split; [|split; [exact Hrules|split]].
  - rewrite Hrules. destruct (String.eqb_spec action "index") as [->|Hne].
    + split; [done|]. intros _. by apply list_elem_of_singleton.
    + split; [by intros ?%elem_of_nil|done].
  - intros props s Hnone Hown.
    destruct (list_snoc_exists "data" (toPath path)) as (ks & k & Hpath).
    rewrite Hpath in Hown |- *.
    destruct (own_field_snoc_inv _ _ _ _ Hown) as (d & Hparent & Hk).
    unfold modifyField, callRule.
    rewrite (get_data_field path props d ks k) by done.
    rewrite Hk. cbn [default from_option id].
    rewrite mask_value_string, bind_Ret.
    split; [eexists; reflexivity|].
    eapply set_data_field; [done|done|done|]. right. by rewrite Hk.
  - intros Form eachComponent form submissions Hall.
    unfold removeProtectedFields. by rewrite computeRules_display.
Qed.

Lemma signature_mask_rule_witness :
  let c := mk_component "sig" "signature" false false in
  let image := "data:image/png;base64,iVBORw0KGgoAAAANSUhEUg" in
  let props := [("data", VObj [("name", VStr "Jane"); ("sig", VStr image)])] in
  (c_type c = "signature" ∧ c_protected c = false ∧ dotted "sig" = true
   ∧ assoc_get "data.sig" props = None
   ∧ own_field ["data"; "sig"] (VObj props) = Some (VStr image))
  ∧ component_rules "index" (c, "sig") = [MaskRule "data.sig"]
  ∧ own_field ["data"; "sig"]
      (modifyField plain_host (MaskRule "data.sig") (VObj props))
    = Some (VStr "YES").
Proof.
  intros c image props. split; [done|].
  pose proof (signature_mask_rule plain_host "index" "sig" c eq_refl eq_refl
                eq_refl) as (_ & Hrules & Hmask & _).
  split; [exact Hrules|].
  exact (proj2 (Hmask props image eq_refl eq_refl)).
Defined.

(** ** Rules without a matching field (C2) *)

(** C2 (counterexample). The mask rule computed for the signature [sig],
    applied to a submission whose data has no [sig]: the submission does not
    stay as it is, the field [sig] is created in it with the empty string. *)
Lemma mask_rule_creates_field :
  let c := mk_component "sig" "signature" false false in
  let sub := VObj [("data", VObj [("name", VStr "Jane")])] in
  component_rules "index" (c, "sig") = [MaskRule "data.sig"]
  ∧ own_field (toPath "data.sig") sub = None
  ∧ _get sub "data.sig" = VUndef
  ∧ modifyField plain_host (MaskRule "data.sig") sub
    = VObj [("data", VObj [("name", VStr "Jane"); ("sig", VStr "")])]
  ∧ modifyField plain_host (MaskRule "data.sig") sub ≠ sub.
Proof.
  intros c sub. repeat split; try reflexivity.
  intros Heq. vm_compute in Heq. discriminate.
Qed.

(** C2 (as amended). A mask rule applied to a submission without a value
    at its path raises no error, but it is not a no-op: where the enclosing
    object exists and lacks the field, the rule creates the field, holding
    the empty string (only a field named [__proto__] cannot be created).
    The delete rule, as the specification describes it, leaves the
    submission unchanged where the enclosing object exists and lacks the
    field.  The paths are in the dotted syntax, without empty segments. *)
Theorem unmatched_rule (host : Host) :
  (∀ path props ks k d,
     dotted path = true → String.concat "." (toPath path) = path →
     "data" :: toPath path = ks ++ [k] →
     own_field ks (VObj props) = Some (VObj d) →
     assoc_get k d = None →
     modifyField host (DeleteRule ("data." +:+ path)) (VObj props) = VObj props)
  ∧ (∀ fieldPath sub,
       own_read sub fieldPath = true → _get sub fieldPath = VUndef →
       returns (callRule host (MaskRule fieldPath) sub))
  ∧ (∀ path props ks k d,
       dotted path = true →
       assoc_get ("data." +:+ path) props = None →
       "data" :: toPath path = ks ++ [k] →
       own_field ks (VObj props) = Some (VObj d) →
       assoc_get k d = None → k ≠ "__proto__" →
       own_field (ks ++ [k]) (VObj props) = None
       ∧ own_field (ks ++ [k])
           (modifyField host (MaskRule ("data." +:+ path)) (VObj props))
         = Some (VStr "")).
Proof.
  split; [|split].
  - intros path props ks k d _ _ Hpath Hparent Hk.
    unfold modifyField, callRule, deleteProp. rewrite toPath_data, Hpath.
    apply delete_walk_absent.
    rewrite (own_field_app ks [k] _ _ Hparent). simpl. by rewrite Hk.
  - intros fieldPath sub _ Hget. unfold callRule.
    rewrite Hget, mask_value_absent. eexists. reflexivity.
  - intros path props ks k d _ Hnone Hpath Hparent Hk Hproto. split.
    + rewrite (own_field_app ks [k] _ _ Hparent). simpl. by rewrite Hk.
    + unfold modifyField, callRule.
      rewrite (get_data_field path props d ks k) by done.
      rewrite Hk. cbn [default from_option id].
      rewrite mask_value_absent, bind_Ret.
      eapply set_data_field; [done|done|done|by left].
Qed.

Lemma unmatched_rule_witness :
  let props := [("data", VObj [("name", VStr "Jane")])] in
  (dotted "secret" = true ∧ String.concat "." (toPath "secret") = "secret"
   ∧ own_field ["data"] (VObj props) = Some (VObj [("name", VStr "Jane")])
   ∧ modifyField plain_host (DeleteRule "data.secret") (VObj props) = VObj props)
  ∧ (own_read (VObj props) "data.sig" = true
     ∧ _get (VObj props) "data.sig" = VUndef
     ∧ returns (callRule plain_host (MaskRule "data.sig") (VObj props)))
  ∧ own_field ["data"; "sig"]
      (modifyField plain_host (MaskRule "data.sig") (VObj props))
    = Some (VStr "").
Proof.
  intros props.
  pose proof (unmatched_rule plain_host) as (Hdelete & Hmask & Hcreate).
  assert (own_read (VObj props) "data.sig" = true) as Hread
    by (vm_compute; reflexivity).
  split; [|split].
  - split; [reflexivity|]. split; [reflexivity|]. split; [reflexivity|].
    exact (Hdelete "secret" props ["data"] "secret" [("name", VStr "Jane")]
             eq_refl eq_refl eq_refl eq_refl eq_refl).
  - split; [exact Hread|]. split; [reflexivity|].
    exact (Hmask "data.sig" (VObj props) Hread eq_refl).
  - refine (proj2 (Hcreate "sig" props ["data"] "sig" [("name", VStr "Jane")]
                     eq_refl eq_refl eq_refl eq_refl eq_refl _)).
    intros Heq. discriminate Heq.
Defined.

(** * Further properties of the helpers *)

(** ** Key conversion, continued *)

Lemma string_app_assoc (a b c : string) : (a +:+ b) +:+ c = a +:+ (b +:+ c).
Proof.
  induction a as [|x a IH]; [done|].
  change (String x ((a +:+ b) +:+ c) = String x (a +:+ (b +:+ c))).
  by rewrite IH.
Qed.

Lemma string_app_nil_r (a : string) : a +:+ "" = a.
Proof.
  induction a as [|x a IH]; [done|].
  change (String x (a +:+ "") = String x a). by rewrite IH.
Qed.

Lemma getSubmissionKey_cons (c : Ascii.ascii) (key : string) :
  getSubmissionKey (String c key)
  = if Ascii.eqb c "."%char then ".data." +:+ getSubmissionKey key
    else String c (getSubmissionKey key).
Proof.
  unfold getSubmissionKey. rewrite replace_all_cons.
  change (starts_with "." (String c key)) with (Ascii.eqb "." c && true).
  rewrite andb_true_r, Ascii.eqb_sym. reflexivity.
Qed.

Lemma getSubmissionKey_app (a b : string) :
  getSubmissionKey (a +:+ b) = getSubmissionKey a +:+ getSubmissionKey b.
Proof.
  induction a as [|c a IH]; [done|].
  change (String c a +:+ b) with (String c (a +:+ b)).
  rewrite !getSubmissionKey_cons, IH.
  destruct (Ascii.eqb c "."); [|done]. symmetry. apply string_app_assoc.
Qed.

(** X1. The submission key of a nested component is built from the
    submission keys of its parts: a dot between a parent path and a child
    path becomes [".data."], and the two sides are converted on their
    own. *)
Theorem getSubmissionKey_nested (parent child : string) :
  getSubmissionKey (parent +:+ "." +:+ child)
  = getSubmissionKey parent +:+ ".data." +:+ getSubmissionKey child.
Proof. by rewrite !getSubmissionKey_app. Qed.

(** X2. [getSubmissionKey] is injective: two form component keys with the
    same submission key are the same key. *)
Theorem getSubmissionKey_inj (a b : string) :
  getSubmissionKey a = getSubmissionKey b → a = b.
Proof.
  revert b. induction a as [|c a IH]; intros [|d b];
    rewrite ?getSubmissionKey_cons.
  - done.
  - destruct (Ascii.eqb d "."); discriminate.
  - destruct (Ascii.eqb c "."); discriminate.
  - destruct (Ascii.eqb_spec c "."%char) as [->|Hc],
             (Ascii.eqb_spec d "."%char) as [->|Hd].
    + intros Heq. simpl in Heq. injection Heq as Heq. by rewrite (IH b).
    + intros Heq. simpl in Heq. injection Heq as Heq _. congruence.
    + intros Heq. simpl in Heq. injection Heq as Heq _. congruence.
    + intros Heq. injection Heq as -> Heq. by rewrite (IH b).
Qed.

Lemma getSubmissionKey_inj_witness :
  getSubmissionKey "user.name" = getSubmissionKey "user.name"
  ∧ "user.name" = "user.name".
Proof.
  split; [reflexivity|].
  exact (getSubmissionKey_inj "user.name" "user.name" eq_refl).
Defined.

(** X3. A key without a dot, the key of a top-level component, is its own
    submission key, and converting it back leaves it unchanged too. *)
Theorem top_level_key_unchanged (key : string) :
  has_dot key = false →
  getSubmissionKey key = key ∧ getFormComponentKey key = key.
Proof.
  induction key as [|c key IH]; [done|].
  simpl. intros [Hc Hkey]%orb_false_elim. destruct (IH Hkey) as [IHs IHf].
  split.
  - by rewrite getSubmissionKey_cons, Hc, IHs.
  - unfold getFormComponentKey in *.
    rewrite (replace_all_other "." c), IHf; [done|].
    intros ->. by rewrite Ascii.eqb_refl in Hc.
Qed.

Lemma top_level_key_unchanged_witness :
  has_dot "firstName" = false
  ∧ getSubmissionKey "firstName" = "firstName"
  ∧ getFormComponentKey "firstName" = "firstName".
Proof.
  split; [reflexivity|].
  exact (top_level_key_unchanged "firstName" eq_refl).
Defined.

(** ** Request values *)

Lemma value_or_false_defined (obj : list (string * JsVal)) (key : string) :
  value_or_false obj key ≠ VUndef.
Proof.
  unfold value_or_false. by destruct (default VUndef (assoc_get key obj)).
Qed.

Lemma value_or_false_stored (obj : list (string * JsVal)) (key : string)
    (v : JsVal) :
  assoc_get key obj = Some v → v ≠ VUndef → value_or_false obj key = v.
Proof.
  intros Hget Hv. unfold value_or_false. rewrite Hget. simpl. by destruct v.
Qed.

Lemma value_or_false_missing (obj : list (string * JsVal)) (key : string) :
  value_or_false obj key = VBool false
  ↔ assoc_get key obj = None ∨ assoc_get key obj = Some VUndef
    ∨ assoc_get key obj = Some (VBool false).
Proof.
  unfold value_or_false.
  destruct (assoc_get key obj) as [[| |[]| | | |]|]; simpl;
    (split; [intros ?|intros [?|[?|?]]]); auto; discriminate.
Qed.

Lemma not_false_spec (v : JsVal) : not_false v = false ↔ v = VBool false.
Proof. destruct v as [| |[]| | | |]; simpl; split; (done || discriminate). Qed.

(** X4. [getRequestValue] looks in the headers, then in the query, then in
    the parameters: a value stored in the headers wins over the other two,
    one stored in the query over the parameters.  A stored [false] counts
    as missing, so the search goes on past it. *)
Theorem getRequestValue_precedence (req : Request) (key : string) (v : JsVal) :
  v ≠ VUndef → v ≠ VBool false →
  (assoc_get key (req_headers req) = Some v → getRequestValue req key = v)
  ∧ (getHeader req key = VBool false →
     assoc_get key (req_query req) = Some v → getRequestValue req key = v)
  ∧ (getHeader req key = VBool false → getQuery req key = VBool false →
     assoc_get key (req_params req) = Some v → getRequestValue req key = v).
Proof.
  intros Hu Hf.
  assert (not_false v = true) as Hv by (by destruct v as [| |[]| | | |]).
  unfold getRequestValue. split; [|split].
  - intros Hh. unfold getHeader.
    by rewrite (value_or_false_stored _ _ v), Hv.
  - intros -> Hq. simpl. unfold getQuery.
    by rewrite (value_or_false_stored _ _ v), Hv.
  - intros -> -> Hp. simpl. unfold getParameter.
    by rewrite (value_or_false_stored _ _ v), Hv.
Qed.

Lemma getRequestValue_precedence_witness :
  let req :=
    {| req_url := "/form"; req_method := "GET";
       req_headers := [("x-token", VBool false)];
       req_query := [("x-token", VStr "q")];
       req_params := [("x-token", VStr "p")];
       req_childRequests := None; req_formioCache := VUndef;
       req_user := VUndef; req_modelQuery := VUndef; req_countQuery := VUndef;
       req_actions := VUndef; req_resourceData := VUndef;
       req_skipResource := VUndef |} in
  (VStr "q" ≠ VUndef ∧ VStr "q" ≠ VBool false
   ∧ getHeader req "x-token" = VBool false
   ∧ assoc_get "x-token" (req_query req) = Some (VStr "q"))
  ∧ getRequestValue req "x-token" = VStr "q".
Proof.
  intros req.
  assert (VStr "q" ≠ VUndef) as Hu by done.
  assert (VStr "q" ≠ VBool false) as Hf by done.
  split; [done|].
  exact (proj1 (proj2 (getRequestValue_precedence req "x-token" (VStr "q") Hu Hf))
           eq_refl eq_refl).
Defined.

(** X5. [getRequestValue] never returns [undefined], and it returns [false]
    exactly when each of the headers, the query and the parameters either
    lacks the key or holds [undefined] or [false] for it. *)
Theorem getRequestValue_false (req : Request) (key : string) :
  getRequestValue req key ≠ VUndef
  ∧ (getRequestValue req key = VBool false
     ↔ getHeader req key = VBool false ∧ getQuery req key = VBool false
       ∧ getParameter req key = VBool false).
Proof.
  unfold getRequestValue.
  pose proof (value_or_false_defined (req_headers req) key) as Hh.
  pose proof (value_or_false_defined (req_query req) key) as Hq.
  pose proof (value_or_false_defined (req_params req) key) as Hp.
  fold (getHeader req key) in *. fold (getQuery req key) in *.
  fold (getParameter req key) in *.
  destruct (not_false (getHeader req key)) eqn:Eh.
  { split; [done|]. split; [intros Heq|intros [Heq _]];
      rewrite Heq in Eh; discriminate. }
  apply not_false_spec in Eh.
  destruct (not_false (getQuery req key)) eqn:Eq.
  { split; [done|]. split; [intros Heq|intros (_ & Heq & _)];
      rewrite Heq in Eq; discriminate. }
  apply not_false_spec in Eq.
  destruct (not_false (getParameter req key)) eqn:Ep.
  { split; [done|]. split; [intros Heq|intros (_ & _ & Heq)];
      rewrite Heq in Ep; discriminate. }
  apply not_false_spec in Ep. by split.
Qed.

(** ** Sub-requests *)

Lemma createSubRequest_child (req : Request) :
  (default 0 (req_childRequests req) ≤ 5)%Z →
  ∃ childReq,
    (createSubRequest req).1 = Some childReq
    ∧ req_childRequests childReq
      = Some (default 0 (req_childRequests req) + 1)%Z.
Proof.
  intros Hle. unfold createSubRequest.
  destruct (Z.ltb_spec 5 (default 0%Z (req_childRequests req))); [lia|].
  eexists. split; reflexivity.
Qed.

Lemma createSubRequest_null (req : Request) :
  (5 < default 0 (req_childRequests req))%Z →
  createSubRequest req = (None, req).
Proof.
  intros Hlt. unfold createSubRequest.
  by destruct (Z.ltb_spec 5 (default 0%Z (req_childRequests req))); [|lia].
Qed.

(** X6. Sub-requests nest to a bounded depth.  Each child counts one more
    child request than its parent and [createSubRequest] returns [null]
    above 5, so the n-th nested sub-request of a request that counts [c]
    exists exactly when [c + n <= 6]: a fresh request can be nested six
    deep, and no deeper. *)
Theorem nested_request_bound (n : nat) (req : Request) :
  is_Some (nested_request n req)
  ↔ n = 0 ∨ (default 0 (req_childRequests req) + Z.of_nat n ≤ 6)%Z.
Proof.
  revert req. induction n as [|n IH]; intros req.
  - simpl. split; [by left|by eauto].
  - cbn [nested_request].
    destruct (Z.le_gt_cases (default 0%Z (req_childRequests req)) 5) as [Hle|Hgt].
    + destruct (createSubRequest_child req Hle) as (childReq & -> & Hcount).
      rewrite IH, Hcount. simpl. split.
      * intros [->|Hn]; right; lia.
      * intros [?|Hn]; [done|]. destruct n; [by left|right; lia].
    + rewrite createSubRequest_null by lia. simpl. split.
      * by intros [? ?].
      * intros [?|Hn]; [done|lia].
Qed.

(** X7. A request that counts at most 5 child requests gets a child: the
    child carries the parent's [formioCache] and [user], counts one more
    child request, has [modelQuery] and [countQuery] set to [null] and no
    [actions], [resourceData] or [skipResource]; the parent itself is left
    without its [formioCache], which the code deletes and does not put
    back.  Above 5 the result is [null] and the request is untouched. *)
Theorem createSubRequest_effect (req : Request) :
  ((default 0 (req_childRequests req) ≤ 5)%Z →
   ∃ childReq req',
     createSubRequest req = (Some childReq, req')
     ∧ req_formioCache childReq = req_formioCache req
     ∧ req_user childReq = req_user req
     ∧ req_childRequests childReq
       = Some (default 0 (req_childRequests req) + 1)%Z
     ∧ req_modelQuery childReq = VNull ∧ req_countQuery childReq = VNull
     ∧ req_actions childReq = VUndef ∧ req_resourceData childReq = VUndef
     ∧ req_skipResource childReq = VUndef
     ∧ req_url childReq = req_url req ∧ req_headers childReq = req_headers req
     ∧ req_formioCache req' = VUndef
     ∧ req_childRequests req' = req_childRequests req
     ∧ req_user req' = req_user req)
  ∧ ((5 < default 0 (req_childRequests req))%Z →
     createSubRequest req = (None, req)).
Proof.
  split; [|apply createSubRequest_null].
  intros Hle. unfold createSubRequest.
  destruct (Z.ltb_spec 5 (default 0%Z (req_childRequests req))); [lia|].
  eexists _, _. split; [reflexivity|]. by repeat split.
Qed.

Lemma createSubRequest_effect_witness :
  let req := mk_request "/form/1" "GET" (Some 5%Z) in
  (default 0 (req_childRequests req) ≤ 5)%Z
  ∧ ∃ childReq req',
      createSubRequest req = (Some childReq, req')
      ∧ req_formioCache childReq = req_formioCache req
      ∧ req_childRequests childReq = Some 6%Z
      ∧ req_formioCache req' = VUndef
      ∧ createSubRequest childReq = (None, childReq).
Proof.
  intros req.
  assert (default 0 (req_childRequests req) ≤ 5)%Z as Hle by (simpl; lia).
  split; [exact Hle|].
  destruct (proj1 (createSubRequest_effect req) Hle)
    as (childReq & req' & Hrun & Hcache & _ & Hcount & _ & _ & _ & _ & _ & _ & _
        & Hgone & _).
  exists childReq, req'. repeat split; try done.
  apply (proj2 (createSubRequest_effect childReq)).
  rewrite Hcount. simpl. lia.
Defined.

(** ** URL parameters *)

Lemma assoc_get_set (k k' : string) (v : JsVal) (props : list (string * JsVal)) :
  assoc_get k (assoc_set k' v props)
  = if String.eqb k' k then Some v else assoc_get k props.
Proof.
  induction props as [|[k0 v0] props IH]; simpl; [done|].
  destruct (String.eqb_spec k0 k') as [->|Hne]; simpl.
  - by destruct (String.eqb k' k).
  - rewrite IH. destruct (String.eqb_spec k0 k) as [->|_]; [|done].
    by destruct (String.eqb_spec k' k) as [->|_].
Qed.

Lemma list_pair_ind {A : Type} (P : list A → Prop) :
  P [] → (∀ x, P [x]) → (∀ x y l, P l → P (x :: y :: l)) → ∀ l, P l.
Proof.
  intros Hnil Hone Hstep.
  refine (fix go l :=
            match l with
            | [] => Hnil
            | [x] => Hone x
            | x :: y :: l' => Hstep x y l' (go l')
            end).
Qed.

Lemma pad_parts_cons (x y : string) (parts : list string) :
  pad_parts (x :: y :: parts) = x :: y :: pad_parts parts.
Proof.
  unfold pad_parts. cbn [length].
  replace (S (S (length parts))) with (length parts + 1 * 2) by lia.
  rewrite Nat.Div0.mod_add. by destruct (Nat.eqb _ _).
Qed.

Lemma url_pairs_pad (parts : list string) :
  url_pairs (pad_parts parts) = url_pairs parts.
Proof.
  induction parts as [|x|x y parts IH] using list_pair_ind; [done|done|].
  rewrite pad_parts_cons. simpl. by rewrite IH.
Qed.

(** One assignment of the loop, on an object without a property
    [__proto__]: the object still has none, and any other key reads the
    value assigned to it. *)
Lemma obj_put_lookup (x k : string) (v : JsVal)
    (urlParams : list (string * JsVal)) :
  assoc_get "__proto__" urlParams = None →
  assoc_get "__proto__" (obj_put x v urlParams) = None
  ∧ (k ≠ "__proto__" →
     assoc_get k (obj_put x v urlParams)
     = if String.eqb x k then Some v else assoc_get k urlParams).
Proof.
  intros Hnone. destruct (String.eqb_spec x "__proto__") as [->|Hx].
  - rewrite obj_put_proto by done. split; [done|]. intros Hk.
    by destruct (String.eqb_spec "__proto__" k) as [<-|_].
  - rewrite obj_put_stores by (by left). rewrite !assoc_get_set.
    split; [by destruct (String.eqb_spec x "__proto__")|done].
Qed.

(** A key looked up in the object that the loop builds: the value of its
    last pair, else what the object held before; the key [__proto__] is
    never stored. *)
Lemma build_params_lookup (k : string) (parts : list string)
    (urlParams : list (string * JsVal)) :
  assoc_get "__proto__" urlParams = None →
  assoc_get k (build_params (pad_parts parts) urlParams)
  = if String.eqb k "__proto__" then None
    else match last_value k (url_pairs parts) with
         | Some v => Some (VStr v)
         | None => assoc_get k urlParams
         end.
Proof.
  revert urlParams.
  induction parts as [|x|x y parts IH] using list_pair_ind;
    intros urlParams Hnone.
  - simpl. by destruct (String.eqb_spec k "__proto__") as [->|_].
  - change (pad_parts [x]) with [x; ""]. cbn [build_params url_pairs last_value].
    destruct (obj_put_lookup x k (VStr "") urlParams Hnone) as [Hproto Hk].
    destruct (String.eqb_spec k "__proto__") as [->|Hne]; [done|].
    rewrite Hk by done. by destruct (String.eqb x k).
  - rewrite pad_parts_cons. cbn [build_params url_pairs last_value].
    destruct (obj_put_lookup x k (VStr y) urlParams Hnone) as [Hproto Hk].
    rewrite IH by done.
    destruct (String.eqb_spec k "__proto__") as [->|Hne]; [done|].
    rewrite Hk by done.
    destruct (last_value k (url_pairs parts)); [done|].
    by destruct (String.eqb x k).
Qed.

Lemma split_char_part (sep : Ascii.ascii) (cur part rest : string) :
  has_char sep part = false →
  split_char sep cur (part +:+ rest) = split_char sep (cur +:+ part) rest.
Proof.
  revert cur. induction part as [|c part IH]; intros cur Hpart.
  - by rewrite string_app_nil_r.
  - simpl in Hpart. apply orb_false_elim in Hpart as [Hc Hpart].
    change (String c part +:+ rest) with (String c (part +:+ rest)).
    cbn [split_char]. rewrite Hc, IH by done.
    by rewrite string_app_assoc.
Qed.

(** Splitting undoes joining, for parts without the separator. *)
Lemma split_char_concat (sep : Ascii.ascii) (parts : list string) :
  parts ≠ [] → Forall (λ part, has_char sep part = false) parts →
  split_char sep "" (String.concat (String sep "") parts) = parts.
Proof.
  intros Hne Hparts. induction Hparts as [|x parts Hx Hparts IH]; [done|].
  destruct parts as [|y parts].
  - simpl. rewrite <- (string_app_nil_r x) at 1.
    by rewrite split_char_part.
  - change (String.concat (String sep "") (x :: y :: parts))
      with (x +:+ String sep (String.concat (String sep "") (y :: parts))).
    rewrite split_char_part by done. cbn [split_char].
    rewrite Ascii.eqb_refl. simpl "+:+". by rewrite IH.
Qed.

Lemma getUrlParams_split (pathname : string → option string)
    (url path : string) :
  url ≠ "" → pathname url = Some path →
  getUrlParams pathname url
  = Ret (VObj (build_params (pad_parts (tail (split_char "/" "" path))) [])).
Proof.
  intros Hurl Hpath. unfold getUrlParams. rewrite Hpath.
  by destruct (String.eqb_spec url "").
Qed.

(** X8. [getUrlParams] returns the empty object for the empty url and
    throws when the parsed url has no pathname.  Otherwise it returns an
    object all of whose values are strings: the pathname is cut at its
    slashes, the first part dropped, and each part at an even position is a
    key whose value is the part after it; a last key without a value gets
    the empty string, never [undefined].  Only the key [__proto__] is never
    stored. *)
Theorem getUrlParams_values (pathname : string → option string) (url : string) :
  getUrlParams pathname "" = Ret (VObj [])
  ∧ (url ≠ "" → pathname url = None → getUrlParams pathname url = Throw)
  ∧ (∀ path, url ≠ "" → pathname url = Some path →
       ∃ urlParams,
         getUrlParams pathname url = Ret (VObj urlParams)
         ∧ (∀ k, assoc_get k urlParams
                 = if String.eqb k "__proto__" then None
                   else VStr <$> last_value k
                                   (url_pairs (tail (split_char "/" "" path))))
         ∧ (∀ k v, assoc_get k urlParams = Some v → ∃ s, v = VStr s)).
Proof.
  split; [done|]. split.
  - intros Hurl Hpath. unfold getUrlParams. rewrite Hpath.
    by destruct (String.eqb_spec url "").
  - intros path Hurl Hpath. eexists. split; [by apply getUrlParams_split|].
    assert (∀ k, assoc_get k (build_params
                                (pad_parts (tail (split_char "/" "" path))) [])
                 = if String.eqb k "__proto__" then None
                   else VStr <$> last_value k
                                   (url_pairs (tail (split_char "/" "" path))))
      as Hlookup.
    { intros k. rewrite build_params_lookup by done.
      destruct (String.eqb k "__proto__"); [done|].
      by destruct (last_value _ _). }
    split; [exact Hlookup|].
    intros k v. rewrite Hlookup.
    destruct (String.eqb k "__proto__"); [done|].
    destruct (last_value _ _) as [s|]; [|done]. intros [= <-]. by exists s.
Qed.

Lemma getUrlParams_values_witness :
  let pathname := λ url : string, Some url in
  ("/form/42/submission" ≠ "" ∧ pathname "/form/42/submission"
                                = Some "/form/42/submission")
  ∧ ∃ urlParams,
      getUrlParams pathname "/form/42/submission" = Ret (VObj urlParams)
      ∧ assoc_get "form" urlParams = Some (VStr "42")
      ∧ assoc_get "submission" urlParams = Some (VStr "").
Proof.
  intros pathname.
  assert ("/form/42/submission" ≠ "") as Hurl by done.
  split; [done|].
  destruct (proj2 (proj2 (getUrlParams_values pathname "/form/42/submission"))
              "/form/42/submission" Hurl eq_refl)
    as (urlParams & Hrun & Hlookup & _).
  exists urlParams. split; [exact Hrun|].
  split; [exact (Hlookup "form")|exact (Hlookup "submission")].
Defined.

(** X9. For a pathname ["/k1/v1/k2/v2/..."], [getUrlParams] maps each key
    other than [__proto__] to the value that follows it; when a key occurs
    at several even positions the last occurrence wins, and a key that ends
    the pathname maps to the empty string.  The key [__proto__] is not in
    the object, whatever follows it in the pathname. *)
Theorem getUrlParams_pairs (pathname : string → option string)
    (url : string) (parts : list string) :
  url ≠ "" → parts ≠ [] →
  Forall (λ part, has_char "/" part = false) parts →
  pathname url = Some ("/" +:+ String.concat "/" parts) →
  ∃ urlParams,
    getUrlParams pathname url = Ret (VObj urlParams)
    ∧ assoc_get "__proto__" urlParams = None
    ∧ ∀ k, k ≠ "__proto__" →
           assoc_get k urlParams = VStr <$> last_value k (url_pairs parts).
Proof.
  intros Hurl Hne Hparts Hpath.
  eexists. split; [by eapply getUrlParams_split|].
  assert (tail (split_char "/" "" ("/" +:+ String.concat "/" parts)) = parts)
    as ->.
  { change ("/" +:+ String.concat "/" parts)
      with (String "/" (String.concat "/" parts)).
    cbn [split_char]. rewrite Ascii.eqb_refl. cbn [tail].
    by apply (split_char_concat "/" parts). }
  split.
  - by rewrite build_params_lookup.
  - intros k Hk. rewrite build_params_lookup by done.
    destruct (String.eqb_spec k "__proto__"); [done|].
    by destruct (last_value k (url_pairs parts)).
Qed.

Lemma getUrlParams_pairs_witness :
  let pathname := λ url : string, Some url in
  let url := "/form/1/form/2/submission" in
  let parts := ["form"; "1"; "form"; "2"; "submission"] in
  (url ≠ "" ∧ parts ≠ []
   ∧ Forall (λ part, has_char "/" part = false) parts
   ∧ pathname url = Some ("/" +:+ String.concat "/" parts))
  ∧ ∃ urlParams,
      getUrlParams pathname url = Ret (VObj urlParams)
      ∧ assoc_get "form" urlParams = Some (VStr "2")
      ∧ assoc_get "submission" urlParams = Some (VStr "")
      ∧ assoc_get "1" urlParams = None.
Proof.
  intros pathname url parts.
  assert (url ≠ "") as Hurl by done.
  assert (parts ≠ []) as Hne by done.
  assert (Forall (λ part, has_char "/" part = false) parts) as Hparts
    by (repeat constructor).
  assert (pathname url = Some ("/" +:+ String.concat "/" parts)) as Hpath
    by reflexivity.
  split; [done|].
  destruct (getUrlParams_pairs pathname url parts Hurl Hne Hparts Hpath)
    as (urlParams & Hrun & _ & Hlookup).
  exists urlParams. split; [exact Hrun|].
  split; [|split]; apply Hlookup; intros Heq; discriminate Heq.
Defined.

(** ** Aliases *)

Lemma starts_with_ci_app (name a b : string) :
  starts_with_ci name a = true → starts_with_ci name (a +:+ b) = true.
Proof.
  revert a. induction name as [|x name IH]; intros a; [done|].
  destruct a as [|y a]; [done|]. simpl.
  intros [Hxy Hrest]%andb_prop. rewrite Hxy. simpl. by apply IH.
Qed.

Lemma reserved_here_app (reservedForms : list string) (a b : string) :
  reserved_here reservedForms a = true →
  reserved_here reservedForms (a +:+ b) = true.
Proof.
  destruct a as [|c a]; [done|].
  unfold reserved_here.
  change (String c a +:+ b) with (String c (a +:+ b)).
  destruct (Ascii.ascii_dec c "/") as [->|Hc].
  - intros (name & Hin & Hname)%existsb_exists.
    apply existsb_exists. exists name. split; [done|].
    by apply starts_with_ci_app.
  - destruct c as [[] [] [] [] [] [] [] []]; try done.
Qed.

Lemma after_line_one_line (s : string) :
  one_line s = true → after_line s = "".
Proof.
  induction s as [|c s IH]; [done|]. simpl.
  intros [Hc Hs]%andb_prop. apply negb_true_iff in Hc. rewrite Hc. by apply IH.
Qed.

(** The alias is the part of the string before the first reserved name
    that follows a slash. *)
Lemma remove_reserved_split (reservedForms : list string) (s : string) :
  one_line s = true →
  ∃ rest,
    s = remove_reserved reservedForms s +:+ rest
    ∧ (rest = "" ∨ reserved_here reservedForms rest = true).
Proof.
  induction s as [|c s IH]; [by exists ""; auto|].
  intros Hline. pose proof Hline as Hline'. simpl in Hline'.
  apply andb_prop in Hline' as [_ Hs].
  cbn [remove_reserved].
  destruct (reserved_here reservedForms (String c s)) eqn:Hhere.
  - exists (String c s). rewrite after_line_one_line by done. auto.
  - destruct (IH Hs) as (rest & Heq & Hrest).
    exists rest. split; [|done].
    change (String c (remove_reserved reservedForms s) +:+ rest)
      with (String c (remove_reserved reservedForms s +:+ rest)).
    by rewrite <- Heq.
Qed.

Lemma remove_reserved_idemp (reservedForms : list string) (s : string) :
  one_line s = true →
  remove_reserved reservedForms (remove_reserved reservedForms s)
  = remove_reserved reservedForms s.
Proof.
  induction s as [|c s IH]; [done|].
  intros Hline. pose proof Hline as Hline'. simpl in Hline'.
  apply andb_prop in Hline' as [_ Hs].
  cbn [remove_reserved].
  destruct (reserved_here reservedForms (String c s)) eqn:Hhere.
  - by rewrite after_line_one_line.
  - cbn [remove_reserved].
    destruct (reserved_here reservedForms
                (String c (remove_reserved reservedForms s))) eqn:Hhere'.
    + destruct (remove_reserved_split reservedForms s Hs) as (rest & Heq & _).
      apply (reserved_here_app _ _ rest) in Hhere'.
      change (String c (remove_reserved reservedForms s) +:+ rest)
        with (String c (remove_reserved reservedForms s +:+ rest)) in Hhere'.
      rewrite <- Heq in Hhere'. congruence.
    + by rewrite IH.
Qed.

Lemma substr_from_app (a b : string) :
  substr_from (String.length a) (a +:+ b) = b.
Proof. induction a as [|c a IH]; [done|]. exact IH. Qed.

Lemma substr_from_split (s a b : string) :
  s = a +:+ b → substr_from (String.length a) s = b.
Proof. intros ->. apply substr_from_app. Qed.

(** No reserved name follows a slash before the place where the alias
    ends. *)
Lemma remove_reserved_first (reservedForms : list string) (s pre suf : string) :
  one_line s = true → s = pre +:+ suf →
  String.length pre < String.length (remove_reserved reservedForms s) →
  reserved_here reservedForms suf = false.
Proof.
  revert pre. induction s as [|c s IH]; intros pre Hline Heq Hlen.
  - simpl in Hlen. lia.
  - pose proof Hline as Hline'. simpl in Hline'.
    apply andb_prop in Hline' as [_ Hs].
    cbn [remove_reserved] in Hlen.
    destruct (reserved_here reservedForms (String c s)) eqn:Hhere.
    + rewrite after_line_one_line in Hlen by done. simpl in Hlen. lia.
    + destruct pre as [|c' pre].
      * change ("" +:+ suf) with suf in Heq. by rewrite <- Heq.
      * change (String c' pre +:+ suf) with (String c' (pre +:+ suf)) in Heq.
        injection Heq as _ Heq. apply (IH pre); [done|done|].
        simpl in Hlen. lia.
Qed.

(** X10. For reserved names that are words, [getAlias] cuts the url,
    without its first character, in two: the alias is what comes before
    the first slash that a reserved form name follows (compared without
    case), [additional] is the rest, from that slash on.  When nothing is
    left, [additional] is empty, or ["/submission"] for a POST. *)
Theorem getAlias_split (req : Request) (reservedForms : list string)
    (c : Ascii.ascii) (s : string) :
  forallb literal_word reservedForms = true →
  req_url req = String c s → one_line s = true →
  ∃ a rest,
    getAlias req reservedForms = Some a
    ∧ s = alias a +:+ rest
    ∧ (rest = "" ∨ reserved_here reservedForms rest = true)
    ∧ (∀ pre suf, s = pre +:+ suf →
                  String.length pre < String.length (alias a) →
                  reserved_here reservedForms suf = false)
    ∧ additional a
      = if String.eqb rest "" && String.eqb (req_method req) "POST"
        then "/submission" else rest.
Proof.
  intros Hwords Hurl Hline.
  destruct (remove_reserved_split reservedForms s Hline) as (rest & Heq & Hrest).
  eexists _, rest. unfold getAlias. rewrite Hwords, Hurl.
  cbn [substr_from alias additional].
  split; [reflexivity|]. cbn [alias additional].
  split; [done|]. split; [done|]. split.
  - intros pre suf Hsplit Hlen. by eapply remove_reserved_first.
  - rewrite Nat.add_1_r. cbn [substr_from].
    by rewrite (substr_from_split s _ rest Heq).
Qed.

Lemma getAlias_split_witness :
  let req := mk_request "/myform/Submission/12" "GET" None in
  (forallb literal_word ["form"; "submission"] = true
   ∧ req_url req = String "/" "myform/Submission/12"
   ∧ one_line "myform/Submission/12" = true)
  ∧ getAlias req ["form"; "submission"]
    = Some {| alias := "myform"; additional := "/Submission/12" |}
  ∧ ∃ a rest,
      getAlias req ["form"; "submission"] = Some a
      ∧ "myform/Submission/12" = alias a +:+ rest
      ∧ (rest = "" ∨ reserved_here ["form"; "submission"] rest = true).
Proof.
  intros req. split; [done|]. split; [reflexivity|].
  destruct (getAlias_split req ["form"; "submission"] "/"
              "myform/Submission/12" eq_refl eq_refl eq_refl)
    as (a & rest & Ha & Heq & Hrest & _).
  by exists a, rest.
Defined.

(** X11. For reserved names that are words, the alias holds no reserved
    form name after a slash any more: a request for the alias alone has the
    same alias, and nothing additional but the ["/submission"] of a
    POST. *)
Theorem getAlias_stable (req req' : Request) (reservedForms : list string)
    (c : Ascii.ascii) (s : string) (a : Alias) :
  forallb literal_word reservedForms = true →
  req_url req = String c s → one_line s = true →
  getAlias req reservedForms = Some a →
  req_url req' = String c (alias a) →
  getAlias req' reservedForms
  = Some {| alias := alias a;
            additional := if String.eqb (req_method req') "POST"
                          then "/submission" else "" |}.
Proof.
  intros Hwords Hurl Hline Ha Hurl'.
  unfold getAlias in Ha. rewrite Hwords, Hurl in Ha.
  cbn [substr_from] in Ha. injection Ha as <-. cbn [alias] in *.
  unfold getAlias. rewrite Hwords, Hurl'. cbn [substr_from].
  rewrite remove_reserved_idemp by done.
  rewrite Nat.add_1_r. cbn [substr_from].
  rewrite (substr_from_split _ _ "") by (by rewrite string_app_nil_r).
  reflexivity.
Qed.

Lemma getAlias_stable_witness :
  let req := mk_request "/myform/Submission/12" "GET" None in
  let req' := mk_request "/myform" "POST" None in
  let a := {| alias := "myform"; additional := "/Submission/12" |} in
  (forallb literal_word ["form"; "submission"] = true
   ∧ req_url req = String "/" "myform/Submission/12"
   ∧ one_line "myform/Submission/12" = true
   ∧ getAlias req ["form"; "submission"] = Some a
   ∧ req_url req' = String "/" (alias a))
  ∧ getAlias req' ["form"; "submission"]
    = Some {| alias := "myform"; additional := "/submission" |}.
Proof.
  intros req req' a. split; [done|].
  exact (getAlias_stable req req' ["form"; "submission"] "/"
           "myform/Submission/12" a eq_refl eq_refl eq_refl eq_refl eq_refl).
Defined.

(** ** The rendered submission *)

Lemma string_concat_cons (x : string) (xs : list string) :
  String.concat "" (x :: xs) = x +:+ String.concat "" xs.
Proof. destruct xs; simpl; [by rewrite string_app_nil_r|done]. Qed.

Lemma component_label_cleared (c' c : Component) :
  cleared c' c → component_label c' = component_label c.
Proof. by intros [->| ->]. Qed.

Lemma c_type_cleared (c' c : Component) :
  cleared c' c → c_type c' = c_type c.
Proof. by intros [->| ->]. Qed.

(** A path of the schema is rendered under the label of its component,
    with a string as value. *)
Lemma render_known_path (host : Host) (fuel : nat) (data : JsVal)
    (key : string) (cs cs' : Schema) (c : Component) (r : RenderedField) :
  cs !! key = Some c →
  renderComponentValue host fuel data key cs = Ret (r, cs') →
  rf_label r = component_label c ∧ ∃ s, rf_value r = VStr s.
Proof.
  intros Hc Hrun. destruct fuel as [|fuel]; [done|].
  rewrite renderComponentValue_S in Hrun.
  rewrite render_body_plain in Hrun by (by eapply render_body_Ret).
  rewrite Hc in Hrun. destruct (c_multiple c).
  - apply bind_Ret_inv in Hrun as ([v cs1] & Hmul & Hret).
    inversion Hret; subst. unfold render_multiple in Hmul.
    apply bind_Ret_inv in Hmul as ([rendered cs2] & _ & Hret').
    apply bind_Ret_inv in Hret' as (joined & _ & Hret').
    inversion Hret'; subst. simpl. eauto.
  - by eapply render_single_string.
Qed.

Lemma submission_rows (host : Host) (fuel : nat) (data : JsVal)
    (cs0 : Schema) (entries : list (string * Component)) :
  (∀ entry, entry ∈ entries → cs0 !! entry.1 = Some entry.2) →
  ∀ st st',
    schema_le st.2 cs0 →
    foldM (submission_row host fuel data) st entries = Ret st' →
    schema_le st'.2 cs0
    ∧ ∃ fields,
        st'.1 = st.1 +:+ String.concat "" (field_row <$> fields)
        ∧ Forall2 (λ field entry,
                     rf_label field = component_label entry.2
                     ∧ ∃ s, rf_value field = VStr s)
            fields
            (List.filter (λ entry, negb (skipped_type (c_type entry.2))) entries).
Proof.
  induction entries as [|entry entries IH]; intros Hin st st' Hle Hfold.
  - simpl in Hfold. inversion Hfold; subst. split; [done|].
    exists []. split; [by rewrite string_app_nil_r|constructor].
  - rewrite foldM_cons in Hfold.
    apply bind_Ret_inv in Hfold as (st1 & Hrow & Hrest).
    assert (∀ e, e ∈ entries → cs0 !! e.1 = Some e.2) as Hin'
      by (intros e He; apply Hin; by right).
    unfold submission_row in Hrow. cbn [List.filter].
    destruct (skipped_type (c_type entry.2)) eqn:Hskip; cbn [negb].
    + inversion Hrow; subst. by apply IH.
    + apply bind_Ret_inv in Hrow as ([field cs1] & Hrun & Hmatch).
      destruct (schema_le_lookup _ _ entry.1 entry.2 Hle) as (c' & Hc' & Hcl);
        [apply Hin; by left|].
      destruct (render_known_path _ _ _ _ _ _ _ _ Hc' Hrun) as [Hlabel [s Hs]].
      rewrite Hs in Hmatch. inversion Hmatch; subst st1.
      apply IH in Hrest as [Hle' (fields & Heq & Hfields)]; [|done|].
      * split; [done|]. exists (field :: fields). split.
        -- rewrite Heq. cbn [fst fmap list_fmap].
           rewrite string_concat_cons.
           rewrite <- (string_app_assoc st.1 (field_row field)).
           f_equal. unfold field_row. by rewrite Hs.
        -- constructor; [|done]. split; [|by eauto].
           by rewrite Hlabel, (component_label_cleared _ _ Hcl).
      * simpl. eapply schema_le_trans; [|exact Hle].
        by eapply renderComponentValue_preserves.
Qed.

(** X12. The rendered submission is a table with exactly one row for every
    flattened component whose type is not [container], [button] or
    [hidden], in the order of the flattened components: the row carries the
    label of the component and a string value.  The test
    [typeof cmpValue.value === 'string'] never drops a row. *)
Theorem renderFormSubmission_rows (host : Host) (Components : Type)
    (flattenComponents : Components → list (string * Component))
    (fuel : nat) (data : JsVal) (components : Components) (html : string) :
  NoDup (flattenComponents components).*1 →
  renderFormSubmission host Components flattenComponents fuel data components
  = Ret html →
  ∃ fields,
    html = TABLE_OPEN +:+ String.concat "" (field_row <$> fields) +:+ "</table>"
    ∧ Forall2 (λ field entry,
                 rf_label field = component_label entry.2
                 ∧ ∃ s, rf_value field = VStr s)
        fields
        (List.filter (λ entry, negb (skipped_type (c_type entry.2)))
           (flattenComponents components)).
Proof.
  intros Hnodup Hrun. unfold renderFormSubmission in Hrun.
  apply bind_Ret_inv in Hrun as ([submission cs'] & Hfold & Hret).
  inversion Hret; subst.
  apply (submission_rows host fuel data
           (list_to_map (flattenComponents components))) in Hfold
    as [_ (fields & Heq & Hfields)].
  - exists fields. split; [|done]. simpl in Heq. rewrite Heq.
    by rewrite string_app_assoc.
  - intros [k c] Hentry. by apply elem_of_list_to_map_1.
  - apply schema_le_refl.
Qed.

Lemma renderFormSubmission_rows_witness :
  let first := {| c_key := "firstName"; c_type := "textfield";
                  c_label := "First Name"; c_placeholder := "";
                  c_multiple := false; c_protected := false;
                  c_values := None; c_data_values := None;
                  c_enableDate := false; c_enableTime := false;
                  c_format := None |} in
  let comps := [("firstName", first);
                ("submit", mk_component "submit" "button" false false)] in
  let data := VObj [("firstName", VStr "Jane")] in
  let field := {| rf_label := "First Name"; rf_value := VStr "Jane" |} in
  (NoDup comps.*1
   ∧ renderFormSubmission plain_host _ (λ cs, cs) 1 data comps
     = Ret (TABLE_OPEN +:+ field_row field +:+ "</table>"))
  ∧ ∃ fields,
      TABLE_OPEN +:+ field_row field +:+ "</table>"
      = TABLE_OPEN +:+ String.concat "" (field_row <$> fields) +:+ "</table>"
      ∧ length fields = 1.
Proof.
  intros first comps data field.
  assert (NoDup comps.*1) as Hnodup.
  { apply NoDup_cons. split; [|apply NoDup_singleton].
    by intros ?%list_elem_of_singleton. }
  assert (renderFormSubmission plain_host _ (λ cs, cs) 1 data comps
          = Ret (TABLE_OPEN +:+ field_row field +:+ "</table>")) as Hrun
    by (vm_compute; reflexivity).
  split; [done|].
  destruct (renderFormSubmission_rows plain_host _ (λ cs, cs) 1 data comps _
              Hnodup Hrun) as (fields & Heq & Hfields).
  exists fields. split; [exact Heq|].
  apply Forall2_length in Hfields. exact Hfields.
Defined.

(** X13. A form all of whose flattened components are containers, buttons
    or hidden fields renders as the empty table, whatever the data: no
    component is rendered at all. *)
Theorem renderFormSubmission_skipped (host : Host) (Components : Type)
    (flattenComponents : Components → list (string * Component))
    (fuel : nat) (data : JsVal) (components : Components) :
  Forall (λ entry, skipped_type (c_type entry.2) = true)
    (flattenComponents components) →
  renderFormSubmission host Components flattenComponents fuel data components
  = Ret (TABLE_OPEN +:+ "</table>").
Proof.
  intros Hall. unfold renderFormSubmission.
  assert (∀ st, foldM (submission_row host fuel data) st
                  (flattenComponents components) = Ret st) as ->; [|done].
  induction Hall as [|entry entries Hskip _ IH]; intros st; [done|].
  rewrite foldM_cons.
  assert (submission_row host fuel data st entry = Ret st) as ->
    by (unfold submission_row; by rewrite Hskip).
  rewrite bind_Ret. apply IH.
Qed.

Lemma renderFormSubmission_skipped_witness :
  let comps := [("panel", mk_component "panel" "container" false false);
                ("submit", mk_component "submit" "button" false false)] in
  Forall (λ entry, skipped_type (c_type entry.2) = true) comps
  ∧ renderFormSubmission plain_host _ (λ cs, cs) 0
      (VObj [("panel", VObj [("a", VNum 1)])]) comps
    = Ret (TABLE_OPEN +:+ "</table>").
Proof.
  intros comps.
  assert (Forall (λ entry, skipped_type (c_type entry.2) = true) comps) as Hall
    by (repeat constructor).
  split; [exact Hall|].
  exact (renderFormSubmission_skipped plain_host _ (λ cs, cs) 0 _ comps Hall).
Defined.

Lemma index_of_key_numeral (i : nat) : index_of_key (nat_to_string i) = Some i.
Proof.
  unfold index_of_key, nat_to_string.
  rewrite NilEmpty.usu, DecimalNat.Unsigned.of_to.
  by rewrite String.eqb_refl.
Qed.

(** A schema built from paths that are not numerals has no index path. *)
Lemma no_index_path_list (comps : list (string * Component)) :
  Forall (λ entry, index_of_key entry.1 = None) comps →
  no_index_path (list_to_map comps).
Proof.
  intros Hall i. apply not_elem_of_list_to_map_1.
  intros (entry & Hi & Hentry)%list_elem_of_fmap.
  rewrite Forall_forall in Hall. specialize (Hall entry Hentry).
  rewrite <- Hi, index_of_key_numeral in Hall. discriminate.
Qed.

(** X14. On a form none of whose paths is an array index,
    [renderFormSubmission] makes no unbounded recursion, whatever the
    submission data: it returns its table or throws, within a number of
    levels of recursion bounded by the nesting depth of the data. *)
Theorem renderFormSubmission_terminates (host : Host) (Components : Type)
    (flattenComponents : Components → list (string * Component))
    (fuel : nat) (data : JsVal) (components : Components) :
  no_index_path (list_to_map (flattenComponents components)) →
  2 * depth data + 3 ≤ fuel →
  terminates (renderFormSubmission host Components flattenComponents fuel data
                components).
Proof.
  intros Hno Hfuel. unfold renderFormSubmission.
  apply terminates_bind; [|by intros [submission cs']].
  apply (foldM_terminates (λ st : string * Schema, no_index_path st.2));
    [| |done].
  - intros st entry _ Hno'. unfold submission_row.
    destruct (skipped_type _); [done|].
    apply terminates_bind.
    + apply renderComponentValue_terminates; [done|].
      pose proof (depth_get data entry.1). lia.
    + intros [field cs1] _. by destruct (rf_value field).
  - intros st entry st' Hno' Hrow. unfold submission_row in Hrow.
    destruct (skipped_type _); [by inversion Hrow; subst|].
    apply bind_Ret_inv in Hrow as ([field cs1] & Hrun & Hmatch).
    apply renderComponentValue_preserves in Hrun.
    assert (st'.2 = cs1) as ->
      by (destruct (rf_value field); by inversion Hmatch).
    by eapply no_index_path_le.
Qed.

Lemma renderFormSubmission_terminates_witness :
  let comps := [("tags", mk_component "tags" "textfield" true false);
                ("grid", mk_component "grid" "datagrid" false false)] in
  let data := VObj [("tags", VArr [VStr "a"; VStr "b"])] in
  (no_index_path (list_to_map comps) ∧ 2 * depth data + 3 ≤ 7)
  ∧ terminates (renderFormSubmission plain_host _ (λ cs, cs) 7 data comps).
Proof.
  intros comps data.
  assert (no_index_path (list_to_map comps)) as Hno
    by (apply no_index_path_list; repeat constructor).
  assert (2 * depth data + 3 ≤ 7) as Hfuel by (vm_compute; lia).
  split; [done|].
  exact (renderFormSubmission_terminates plain_host _ (λ cs, cs) 7 data comps
           Hno Hfuel).
Defined.

(** ** Redaction rules, continued *)

Lemma own_field_not_object (k : string) (rest : list string) (v : JsVal) :
  (∀ props, v ≠ VObj props) → own_field (k :: rest) v = None.
Proof. destruct v; try done. intros Hv. by destruct (Hv props). Qed.




(** What [_.set] writes into an object changes one property of it. *)
Lemma set_walk_object (k : string) (rest : list string) (v : JsVal)
    (props : list (string * JsVal)) :
  set_walk (k :: rest) v (VObj props) = VObj props
  ∨ ∃ child, set_walk (k :: rest) v (VObj props)
             = VObj (assoc_set k child props)
             ∧ (rest = [] → child = v)
             ∧ (rest ≠ [] →
                child = set_walk rest v
                          (match default VUndef (assoc_get k props) with
                           | VUndef | VNull =>
                               if isIndex (hd "" rest) then VArr [] else VObj []
                           | other => other
                           end)).
Proof.
  assert (∀ child, obj_put k child props = props
                   ∨ obj_put k child props = assoc_set k child props) as Hput.
  { intros child. unfold obj_put. destruct (_ && _); auto. }
  destruct rest as [|next rest].
  - cbn [set_walk isObject js_put].
    destruct (Hput v) as [->| ->]; [by left|].
    right. exists v. by repeat split.
  - rewrite set_walk_step. cbv beta iota zeta delta [isObject js_prop js_put].
    destruct (default VUndef (assoc_get k props)) as [| | | | | |] eqn:Hchild;
      cbv beta iota zeta delta [is_nullish isObject];
      try (by left);
      match goal with
      | |- VObj (obj_put k ?child props) = _ ∨ _ =>
          destruct (Hput child) as [->| ->]; [by left|]
      end;
      right; eexists; (split; [reflexivity|]); by split.
Qed.




Lemma set_data_object (path : string) (props : list (string * JsVal))
    (v : JsVal) :
  assoc_get ("data." +:+ path) props = None →
  ∃ props', _set (VObj props) ("data." +:+ path) v = VObj props'
            ∧ assoc_get ("data." +:+ path) props' = None.
Proof.
  intros Hnone. unfold _set. rewrite set_path_data by done. cbn [is_nullish].
  destruct (set_walk_object "data" (toPath path) v props)
    as [->|(child & -> & _)]; [by eauto|].
  eexists. split; [reflexivity|]. by rewrite assoc_get_set.
Qed.

(** X16. The mask rule is not idempotent.  The marker ["YES"] that it
    writes for a long signature is itself shorter than 25 characters, so a
    second application replaces it by the empty string: after two
    applications the field is empty, whatever string it held. *)
Theorem mask_rule_twice (host : Host) (path : string)
    (props : list (string * JsVal)) (s : string) :
  assoc_get ("data." +:+ path) props = None →
  own_field ("data" :: toPath path) (VObj props) = Some (VStr s) →
  let rule := MaskRule ("data." +:+ path) in
  own_field ("data" :: toPath path)
    (modifyField host rule (modifyField host rule (VObj props)))
  = Some (VStr "").
Proof.
  intros Hnone Hown rule.
  destruct (list_snoc_exists "data" (toPath path)) as (ks & k & Hpath).
  rewrite Hpath in Hown |- *.
  destruct (own_field_snoc_inv _ _ _ _ Hown) as (d & Hparent & Hk).
  assert (modifyField host rule (VObj props)
          = _set (VObj props) ("data." +:+ path)
              (VStr (if String.length s <? 25 then "" else "YES"))) as Hfirst.
  { unfold rule, modifyField, callRule.
    rewrite (get_data_field path props d ks k) by done.
    rewrite Hk. cbn [default from_option id]. by rewrite mask_value_string. }
  destruct (set_data_object path props
              (VStr (if String.length s <? 25 then "" else "YES")) Hnone)
    as (props1 & Hset & Hnone1).
  assert (k ≠ "__proto__" ∨ is_Some (assoc_get k d)) as Hstored
    by (right; by rewrite Hk).
  pose proof (set_data_field path props d ks k
                (VStr (if String.length s <? 25 then "" else "YES"))
                Hnone Hpath Hparent Hstored) as Hown1.
  rewrite Hfirst, Hset. rewrite Hset in Hown1.
  destruct (own_field_snoc_inv _ _ _ _ Hown1) as (d1 & Hparent1 & Hk1).
  unfold rule, modifyField, callRule.
  rewrite (get_data_field path props1 d1 ks k) by done.
  rewrite Hk1. cbn [default from_option id].
  rewrite mask_value_string, bind_Ret.
  replace (String.length (if String.length s <? 25 then "" else "YES") <? 25)
    with true by (by destruct (String.length s <? 25)).
  eapply set_data_field; [done|done|done|]. right. by rewrite Hk1.
Qed.

Lemma mask_rule_twice_witness :
  let image := "data:image/png;base64,iVBORw0KGgoAAAANSUhEUg" in
  let props := [("data", VObj [("sig", VStr image)])] in
  let rule := MaskRule "data.sig" in
  (assoc_get "data.sig" props = None
   ∧ own_field ["data"; "sig"] (VObj props) = Some (VStr image))
  ∧ modifyField plain_host rule (VObj props)
    = VObj [("data", VObj [("sig", VStr "YES")])]
  ∧ own_field ["data"; "sig"]
      (modifyField plain_host rule (modifyField plain_host rule (VObj props)))
    = Some (VStr "").
Proof.
  intros image props rule. split; [done|]. split; [reflexivity|].
  exact (mask_rule_twice plain_host "sig" props image eq_refl eq_refl).
Defined.

(** X17. Whatever the action, every protected component that the traversal
    visits has its delete rule among the rules; and unless the action is
    ["index"] the rules are delete rules only: no value is ever masked for
    another action. *)
Theorem computeRules_kinds (Form : Type)
    (eachComponent : Form → list (Component * string))
    (form : Form) (action : string) :
  (∀ c path, (c, path) ∈ eachComponent form → c_protected c = true →
     DeleteRule ("data." +:+ path) ∈ computeRules Form eachComponent form action)
  ∧ (action ≠ "index" →
     ∀ rule, rule ∈ computeRules Form eachComponent form action →
     ∃ path, rule = DeleteRule path).
Proof.
  unfold computeRules. split.
  - intros c path Hvisit Hp. apply list_elem_of_In, in_flat_map.
    exists (c, path). split; [by apply list_elem_of_In|].
    unfold component_rules. simpl. rewrite Hp. by left.
  - intros Haction rule Hrule.
    apply list_elem_of_In, in_flat_map in Hrule as ([c path] & _ & Hin).
    unfold component_rules in Hin. simpl in Hin.
    destruct (c_protected c).
    + destruct Hin as [<-|[]]. eauto.
    + destruct (String.eqb_spec action "index") as [->|_]; [done|].
      rewrite andb_false_r in Hin. destruct Hin.
Qed.

Lemma computeRules_kinds_witness :
  let visits := [(mk_component "sig" "signature" false false, "sig");
                 (mk_component "pin" "password" false true, "pin")] in
  ((mk_component "pin" "password" false true, "pin") ∈ visits
   ∧ "display" ≠ "index")
  ∧ DeleteRule "data.pin" ∈ computeRules _ (λ form, form) visits "display"
  ∧ ∀ rule, rule ∈ computeRules _ (λ form, form) visits "display" →
            ∃ path, rule = DeleteRule path.
Proof.
  intros visits.
  assert ((mk_component "pin" "password" false true, "pin") ∈ visits) as Hin
    by (right; left).
  assert ("display" ≠ "index") as Hne by done.
  split; [done|].
  pose proof (computeRules_kinds _ (λ form, form) visits "display")
    as [Hdelete Hkinds].
  split; [exact (Hdelete _ "pin" Hin eq_refl)|exact (Hkinds Hne)].
Defined.

(** ** Rendering, continued *)

(** X18. A [datetime] component with [enableDate] and without a [format]
    string cannot be rendered as a single value: the call throws, whatever
    the data, and the [protected] override does not prevent it. *)
Theorem datetime_without_format_throws (host : Host) (fuel : nat)
    (data : JsVal) (key : string) (cs : Schema) (c : Component) :
  cs !! key = Some c → c_multiple c = false → c_type c = "datetime" →
  c_enableDate c = true → c_format c = None →
  renderComponentValue host (S fuel) data key cs = Throw.
Proof.
  intros Hc Hm Ht Hd Hf.
  destruct (cs !! "hasOwnProperty") as [shadow|] eqn:Hown;
    [by rewrite render_shadowed|].
  rewrite renderComponentValue_S, render_body_plain by done.
  unfold render_single, dispatch, render_datetime.
  by rewrite Hc, Hm, Ht, Hd, Hf.
Qed.

Lemma datetime_without_format_throws_witness :
  let c := {| c_key := "when"; c_type := "datetime"; c_label := "When";
              c_placeholder := ""; c_multiple := false; c_protected := true;
              c_values := None; c_data_values := None;
              c_enableDate := true; c_enableTime := false;
              c_format := None |} in
  let cs : Schema := {[ "when" := c ]} in
  cs !! "when" = Some c
  ∧ renderComponentValue plain_host 1 (VObj []) "when" cs = Throw.
Proof.
  intros c cs.
  assert (cs !! "when" = Some c) as Hc by (vm_compute; reflexivity).
  split; [exact Hc|].
  exact (datetime_without_format_throws plain_host 0 (VObj []) "when" cs c Hc
           eq_refl eq_refl eq_refl eq_refl).
Defined.

(** X19. A [password] component that is not [multiple], on a schema
    without a path ["hasOwnProperty"], renders as a fixed mask that does
    not depend on the submission data: every submission (read on its own
    properties) renders alike, and the stored password never appears. *)
Theorem password_independent_of_data (host : Host) (fuel : nat)
    (data : JsVal) (key : string) (cs : Schema) (c : Component) :
  cs !! key = Some c → c_multiple c = false → c_type c = "password" →
  cs !! "hasOwnProperty" = None → own_read data key = true →
  renderComponentValue host (S fuel) data key cs
  = Ret ({| rf_label := component_label c;
            rf_value := VStr (if c_protected c then PROTECTED_MASK
                              else PASSWORD_MASK) |}, cs).
Proof.
  intros Hc Hm Ht Hown _.
  rewrite renderComponentValue_S, render_body_plain by done.
  unfold render_single, dispatch.
  rewrite Hc, Hm, Ht. by destruct (c_protected c).
Qed.

Lemma password_independent_of_data_witness :
  let c := mk_component "pw" "password" false false in
  let cs : Schema := {[ "pw" := c ]} in
  let data := VObj [("pw", VStr "secret123")] in
  (cs !! "pw" = Some c ∧ cs !! "hasOwnProperty" = None
   ∧ own_read data "pw" = true)
  ∧ renderComponentValue plain_host 1 data "pw" cs
    = Ret ({| rf_label := "pw"; rf_value := VStr PASSWORD_MASK |}, cs).
Proof.
  intros c cs data.
  assert (cs !! "pw" = Some c) as Hc by (vm_compute; reflexivity).
  assert (cs !! "hasOwnProperty" = None) as Hown by (vm_compute; reflexivity).
  assert (own_read data "pw" = true) as Hread by (vm_compute; reflexivity).
  split; [done|].
  exact (password_independent_of_data plain_host 0 data "pw" cs c Hc
           eq_refl eq_refl Hown Hread).
Defined.

(** X20. Rendering is not repeatable on the same schema.  The first call
    for a [multiple] component renders the elements one by one and joins
    them; it leaves the flag cleared, so a second call on the schema it
    leaves behind renders the whole list as one single value.  Stated for
    a type without a recursive call of its own, on a schema without a path
    ["hasOwnProperty"], where the single-value renderings return. *)
Theorem second_render_differs (host : Host) (fuel fuel' : nat)
    (data : JsVal) (key : string) (cs : Schema) (c : Component)
    (elems : list JsVal) (rendered : list string) (whole : JsVal) :
  cs !! key = Some c → c_multiple c = true → flat c = true →
  cs !! "hasOwnProperty" = None → own_read data key = true →
  _get data key = VArr elems →
  Forall2 (λ x s, flat_render host c (or_empty x) = Ret (VStr s))
    elems rendered →
  flat_render host c (VArr elems) = Ret whole →
  ∃ cs1,
    renderComponentValue host (S (S fuel)) data key cs
    = Ret ({| rf_label := component_label c;
              rf_value := VStr (String.concat ", " rendered) |}, cs1)
    ∧ renderComponentValue host (S fuel') data key cs1
      = Ret ({| rf_label := component_label c; rf_value := whole |}, cs1).
Proof.
  intros Hc Hm Hf Hown Hread Hget Hall Hwhole.
  exists (<[key := set_multiple false c]> cs). split.
  - rewrite (render_multiple_own host fuel data key cs c) by done.
    rewrite Hget. change (or_empty (VArr elems)) with (VArr elems).
    rewrite each_entries_array.
    rewrite (single_elements_flat host _ (set_multiple false c)) by done.
    rewrite (mapM_fmap_Forall2 _ VStr elems rendered) by done.
    cbn [mret Outcome_ret mbind Outcome_bind app].
    by rewrite array_join_strings.
  - rewrite renderComponentValue_S, render_body_plain.
    + rewrite lookup_insert_eq, Hget. cbn [c_multiple set_multiple].
      rewrite (render_single_flat host _ (set_multiple false c)) by done.
      change (or_empty (VArr elems)) with (VArr elems).
      change (flat_render host (set_multiple false c) (VArr elems))
        with (flat_render host c (VArr elems)).
      by rewrite Hwhole.
    + rewrite lookup_insert_ne; [done|]. intros Heq. congruence.
Qed.

Lemma second_render_differs_witness :
  let c := mk_component "tags" "textfield" true false in
  let cs : Schema := {[ "tags" := c ]} in
  let data := VObj [("tags", VArr [VStr "a"; VStr "b"])] in
  (cs !! "tags" = Some c ∧ cs !! "hasOwnProperty" = None
   ∧ own_read data "tags" = true
   ∧ _get data "tags" = VArr [VStr "a"; VStr "b"])
  ∧ ∃ cs1,
      renderComponentValue plain_host 2 data "tags" cs
      = Ret ({| rf_label := "tags"; rf_value := VStr "a, b" |}, cs1)
      ∧ renderComponentValue plain_host 2 data "tags" cs1
        = Ret ({| rf_label := "tags"; rf_value := VStr "a,b" |}, cs1).
Proof.
  intros c cs data.
  assert (cs !! "tags" = Some c) as Hc by (vm_compute; reflexivity).
  assert (cs !! "hasOwnProperty" = None) as Hown by (vm_compute; reflexivity).
  assert (own_read data "tags" = true) as Hread by (vm_compute; reflexivity).
  assert (_get data "tags" = VArr [VStr "a"; VStr "b"]) as Hget
    by (vm_compute; reflexivity).
  split; [done|].
  apply (second_render_differs plain_host 0 1 data "tags" cs c
           [VStr "a"; VStr "b"] ["a"; "b"] (VStr "a,b") Hc eq_refl eq_refl
           Hown Hread Hget); [|reflexivity].
  repeat constructor.
Defined.

Lemma grid_rows_without_columns
    (self : JsVal → string → Schema → Outcome (RenderedField * Schema))
    (rows : list JsVal) (html : string) (cs : Schema) :
  foldM (grid_row self []) (html, cs) rows
  = Ret (html +:+ String.concat "" (replicate (length rows) "<tr></tr>"), cs).
Proof.
  revert html. induction rows as [|row rows IH]; intros html.
  - simpl. by rewrite string_app_nil_r.
  - rewrite foldM_cons.
    assert (grid_row self [] (html, cs) row
            = Ret ((html +:+ "<tr>") +:+ "</tr>", cs)) as -> by reflexivity.
    rewrite bind_Ret, IH. cbn [length replicate].
    rewrite string_concat_cons, !string_app_assoc. reflexivity.
Qed.

(** X21. The columns of a data grid come from its first row only.  When no
    key of the first row is a path of the schema, the grid has no column:
    the header row is empty and every row of the list gives an empty row,
    whatever the other rows hold, and no cell is rendered.  Stated for a
    schema without a path ["hasOwnProperty"]. *)
Theorem datagrid_columns_from_first_row (host : Host) (fuel : nat)
    (data : JsVal) (key : string) (cs : Schema) (c : Component)
    (row : JsVal) (rows : list JsVal) :
  cs !! key = Some c → c_type c = "datagrid" →
  c_multiple c = false → c_protected c = false →
  cs !! "hasOwnProperty" = None → own_read data key = true →
  _get data key = VArr (row :: rows) →
  (∀ entry, entry ∈ each_entries row → cs !! entry.1 = None) →
  renderComponentValue host (S fuel) data key cs
  = Ret ({| rf_label := component_label c;
            rf_value :=
              VStr (TABLE_OPEN +:+ "<tr>" +:+ "</tr>"
                    +:+ String.concat ""
                          (replicate (S (length rows)) "<tr></tr>")
                    +:+ "</table>") |}, cs).
Proof.
  intros Hc Ht Hm Hp Hown _ Hget Hrow.
  assert (grid_columns host (VArr (row :: rows)) cs = Ret []) as Hcols.
  { unfold grid_columns.
    assert (js_gt host (js_prop (VArr (row :: rows)) "length") 0 = Ret true)
      as ->.
    { unfold js_gt. cbn [js_prop ToNumber String.eqb Ascii.eqb Bool.eqb].
      rewrite bind_Ret. cbn [mret Outcome_ret]. f_equal. }
    rewrite bind_Ret. rewrite grid_column_fold_plain by done.
    cbn [app]. f_equal. apply elem_of_nil_inv.
    intros column (entry & Hentry & Hcol)%list_elem_of_omap.
    change (js_prop (VArr (row :: rows)) "0") with row in Hentry.
    by rewrite (Hrow entry Hentry) in Hcol. }
  rewrite renderComponentValue_S, render_body_plain by done.
  unfold render_single, dispatch.
  rewrite Hc, Hm, Hget, Ht. change (kind_of "datagrid") with KDatagrid.
  change (or_empty (VArr (row :: rows))) with (VArr (row :: rows)).
  unfold render_datagrid. rewrite Hcols, bind_Ret, each_entries_array.
  rewrite grid_rows_without_columns, !bind_Ret, Hp.
  reflexivity.
Qed.

Lemma datagrid_columns_from_first_row_witness :
  let cs : Schema := {[ "grid" := mk_component "grid" "datagrid" false false;
                        "qty" := mk_component "qty" "number" false false ]} in
  let data := VObj [("grid", VArr [VObj [("old", VNum 1)];
                                   VObj [("qty", VNum 2)]])] in
  (cs !! "grid" = Some (mk_component "grid" "datagrid" false false)
   ∧ cs !! "hasOwnProperty" = None ∧ own_read data "grid" = true
   ∧ _get data "grid" = VArr [VObj [("old", VNum 1)]; VObj [("qty", VNum 2)]]
   ∧ ∀ entry, entry ∈ each_entries (VObj [("old", VNum 1)]) →
              cs !! entry.1 = None)
  ∧ renderComponentValue plain_host 1 data "grid" cs
    = Ret ({| rf_label := "grid";
              rf_value :=
                VStr (TABLE_OPEN +:+ "<tr>" +:+ "</tr>"
                      +:+ "<tr></tr>" +:+ "<tr></tr>" +:+ "</table>") |}, cs).
Proof.
  intros cs data.
  assert (cs !! "grid" = Some (mk_component "grid" "datagrid" false false))
    as Hc by (vm_compute; reflexivity).
  assert (cs !! "hasOwnProperty" = None) as Hown by (vm_compute; reflexivity).
  assert (own_read data "grid" = true) as Hread by (vm_compute; reflexivity).
  assert (_get data "grid"
          = VArr [VObj [("old", VNum 1)]; VObj [("qty", VNum 2)]]) as Hget
    by (vm_compute; reflexivity).
  assert (∀ entry, entry ∈ each_entries (VObj [("old", VNum 1)]) →
                   cs !! entry.1 = None) as Hrow.
  { intros entry Hentry. apply list_elem_of_singleton in Hentry as ->.
    vm_compute; reflexivity. }
  split; [done|].
  exact (datagrid_columns_from_first_row plain_host 0 data "grid" cs _ _ _
           Hc eq_refl eq_refl eq_refl Hown Hread Hget Hrow).
Defined.
